(** * RMS.Formats.Platepar: plate parameters of a meteor camera

    A shallow embedding of [src/RMS/Formats/Platepar.py].  A [Platepar]
    is a Python object: its fields live in [self.__dict__], a dictionary
    from attribute names to dynamically typed values, and its distortion
    coefficients are numpy arrays, mutable objects that several attributes
    may share.  The embedding keeps both: the attribute dictionary is a
    [gmap string value] and arrays live in a store addressed by
    references, so that aliasing ([self.x_poly = self.x_poly_fwd]) and
    copies ([np.array(self.x_poly_rev)]) are told apart.  Methods are
    computations in a state-and-exception monad; an exception leaves the
    mutations done before it in place, as in Python. *)

From Stdlib Require Import ZArith String List Lia.
From Stdlib Require Import Reals Lra.
From Stdlib Require Import Floats.SpecFloat.
From stdpp Require Import gmap strings list.

Set Warnings "-register-all".

Local Open Scope string_scope.
Local Open Scope Z_scope.

(** ** IEEE-754 binary64 numbers *)

(** Python floats and numpy's float64 are binary64; [SpecFloat] gives
    their arithmetic, rounding to nearest even. *)
Module F64.

Definition prec : Z := 53.
Definition emax : Z := 1024.

Definition of_Z (z : Z) : spec_float := binary_normalize prec emax z 0 false.
Definition mul : spec_float -> spec_float -> spec_float := SFmul prec emax.
Definition div : spec_float -> spec_float -> spec_float := SFdiv prec emax.
Definition add : spec_float -> spec_float -> spec_float := SFadd prec emax.
Definition sub : spec_float -> spec_float -> spec_float := SFsub prec emax.

Definition zero : spec_float := S754_zero false.
(** The literal [0.5]. *)
Definition half : spec_float := Eval vm_compute in div (of_Z 1) (of_Z 2).
(** The literal [1.0]. *)
Definition one : spec_float := Eval vm_compute in of_Z 1.
(** The literal [0.001], the double nearest to 1/1000. *)
Definition milli : spec_float := Eval vm_compute in div (of_Z 1) (of_Z 1000).
(** The literal [-2.5]. *)
Definition minus_2_5 : spec_float := Eval vm_compute in div (of_Z (-5)) (of_Z 2).

(** The real number a finite number stands for (0 for the others). *)
Definition to_R (x : spec_float) : R :=
  match x with
  | S754_finite s m e => ((if s then -1 else 1) * IZR (Zpos m) * powerRZ 2 e)%R
  | _ => 0%R
  end.

End F64.

Abbreviation f64 := spec_float.

(** ** Python values *)

(** An array reference: the identity of a numpy array object. *)
Abbreviation loc := nat.

Inductive value : Type :=
  | VNone
  | VBool (b : bool)
  | VInt (z : Z)
  | VFloat (x : f64)                  (* float and numpy.float64 *)
  | VStr (s : string)
  | VList (vs : list value)
  | VArr (l : loc)                    (* a numpy.ndarray, by reference *)
  | VDatetime (fields : list Z).      (* a datetime.datetime *)

(** The contents of a one-dimensional numpy array, with its dtype. *)
Inductive ndarray : Type :=
  | ArrF64 (xs : list f64)
  | ArrI64 (zs : list Z).

Definition arr_length (a : ndarray) : nat :=
  match a with
  | ArrF64 xs => length xs
  | ArrI64 zs => length zs
  end.

Inductive exn : Type :=
  | ValueError (msg : string)
  | AttributeError (name : string)
  | TypeError (msg : string)
  | IndexError
  | ZeroDivisionError
  (** A Python behaviour outside the modelled fragment (the payload says
      which); no statement below relies on it being raised. *)
  | Unmodelled (what : string).

Inductive result (A : Type) : Type :=
  | Ok (a : A)
  | Raise (e : exn).
Arguments Ok {A} a.
Arguments Raise {A} e.

(** ** The program state *)

Record pstate : Type := mkState {
  attrs : gmap string value;      (* self.__dict__ *)
  heap : gmap nat ndarray;        (* the numpy arrays allocated so far *)
  next_loc : nat;                 (* the next fresh array reference *)
  stdout : list string            (* what print has written *)
}.

Definition M (A : Type) : Type := pstate -> pstate * result A.

#[global] Instance M_ret : MRet M := fun A a st => (st, Ok a).

#[global] Instance M_bind : MBind M := fun A B k c st =>
  match c st with
  | (st', Ok a) => k a st'
  | (st', Raise e) => (st', Raise e)
  end.

Definition raise {A} (e : exn) : M A := fun st => (st, Raise e).

Definition lift {A} (r : result A) : M A := fun st => (st, r).

(** [self.name] *)
Definition getattr (name : string) : M value :=
  fun st =>
    match attrs st !! name with
    | Some v => (st, Ok v)
    | None => (st, Raise (AttributeError name))
    end.

(** [self.name = v] *)
Definition setattr (name : string) (v : value) : M unit :=
  fun st =>
    (mkState (<[name := v]> (attrs st)) (heap st) (next_loc st) (stdout st), Ok tt).

(** [del self.name] *)
Definition delattr (name : string) : M unit :=
  fun st =>
    match attrs st !! name with
    | Some _ =>
        (mkState (delete name (attrs st)) (heap st) (next_loc st) (stdout st), Ok tt)
    | None => (st, Raise (AttributeError name))
    end.

(** [name in self.__dict__] *)
Definition hasattr (name : string) : M bool :=
  fun st => (st, Ok (bool_decide (is_Some (attrs st !! name)))).

(** A new array object holding [a]. *)
Definition alloc (a : ndarray) : M loc :=
  fun st =>
    (mkState (attrs st) (<[next_loc st := a]> (heap st)) (S (next_loc st)) (stdout st),
     Ok (next_loc st)).

Definition load (l : loc) : M ndarray :=
  fun st =>
    match heap st !! l with
    | Some a => (st, Ok a)
    | None => (st, Raise (Unmodelled "dangling array reference"))
    end.

Definition store (l : loc) (a : ndarray) : M unit :=
  fun st =>
    (mkState (attrs st) (<[l := a]> (heap st)) (next_loc st) (stdout st), Ok tt).

(** [print(s)] *)
Definition print (s : string) : M unit :=
  fun st =>
    (mkState (attrs st) (heap st) (next_loc st) (stdout st ++ [s]), Ok tt).

(** ** The numpy operations the module uses *)

Definition int64_range (z : Z) : bool :=
  (- 2 ^ 63 <=? z) && (z <? 2 ^ 63).

(** Wrap-around of int64 arithmetic. *)
Definition wrap64 (z : Z) : Z := (z + 2 ^ 63) mod 2 ^ 64 - 2 ^ 63.

(** [np.zeros(shape=(n,), dtype=np.float64)] *)
Definition np_zeros (n : nat) : M loc := alloc (ArrF64 (replicate n F64.zero)).

Definition all_ints (vs : list value) : option (list Z) :=
  mapM (fun v => match v with
                 | VInt z => if int64_range z then Some z else None
                 | _ => None
                 end) vs.

Definition all_numbers (vs : list value) : option (list f64) :=
  mapM (fun v => match v with
                 | VInt z => if int64_range z then Some (F64.of_Z z) else None
                 | VFloat x => Some x
                 | _ => None
                 end) vs.

(** The array [np.array(vs)] builds from a Python list of numbers: int64
    when every element is an int, float64 as soon as one is a float (and
    for the empty list). *)
Definition array_of_list (vs : list value) : result ndarray :=
  match vs with
  | [] => Ok (ArrF64 [])
  | _ =>
      match all_ints vs with
      | Some zs => Ok (ArrI64 zs)
      | None =>
          match all_numbers vs with
          | Some xs => Ok (ArrF64 xs)
          | None => Raise (Unmodelled "np.array of a list that is not a list of numbers")
          end
      end
  end.

(** [np.array(v)]: always a new array object, a copy when [v] is an array. *)
Definition np_array (v : value) : M loc :=
  match v with
  | VArr l => a ← load l; alloc a
  | VList vs => a ← lift (array_of_list vs); alloc a
  | _ => raise (Unmodelled "np.array of a scalar")
  end.

(** The elements of an array as Python numbers. *)
Definition array_values (a : ndarray) : list value :=
  match a with
  | ArrF64 xs => VFloat <$> xs
  | ArrI64 zs => VInt <$> zs
  end.

(** [a.tolist()] *)
Definition arr_tolist (a : ndarray) : value := VList (array_values a).

(** [v.tolist()]: only arrays have the method. *)
Definition tolist (v : value) : M value :=
  match v with
  | VArr l => a ← load l; mret (arr_tolist a)
  | _ => raise (AttributeError "tolist")
  end.

(** [a[i] = x] for a float [x] and a float64 array [a]. *)
Definition setitem_f64 (v : value) (i : nat) (x : f64) : M unit :=
  match v with
  | VArr l =>
      a ← load l;
      match a with
      | ArrF64 xs =>
          match xs !! i with
          | Some _ => store l (ArrF64 (<[i := x]> xs))
          | None => raise IndexError
          end
      | ArrI64 _ => raise (Unmodelled "float stored in an int64 array")
      end
  | _ => raise (Unmodelled "item assignment on a value that is not an array")
  end.

(** [a[i] *= k] for a Python int [k]. *)
Definition imul_item (v : value) (i : nat) (k : Z) : M unit :=
  match v with
  | VArr l =>
      a ← load l;
      match a with
      | ArrF64 xs =>
          match xs !! i with
          | Some x => store l (ArrF64 (<[i := F64.mul x (F64.of_Z k)]> xs))
          | None => raise IndexError
          end
      | ArrI64 zs =>
          match zs !! i with
          | Some z => store l (ArrI64 (<[i := wrap64 (z * k)]> zs))
          | None => raise IndexError
          end
      end
  | _ => raise (Unmodelled "item assignment on a value that is not an array")
  end.

(** The float64 a numpy function makes of a scalar argument. *)
Definition as_f64 (v : value) : result f64 :=
  match v with
  | VFloat x => Ok x
  | VInt z =>
      if int64_range z then Ok (F64.of_Z z)
      else Raise (Unmodelled "int outside int64")
  | VNone => Raise (TypeError "NoneType is not a number")
  | VStr _ => Raise (TypeError "str is not a number")
  | _ => Raise (Unmodelled "numpy function of a bool, list, array or datetime")
  end.

(** [s.format] with the [{:s}] format code. *)
Definition format_s (v : value) : result string :=
  match v with
  | VStr s => Ok s
  | VInt _ | VFloat _ | VBool _ => Raise (ValueError "Unknown format code 's'")
  | _ => Raise (TypeError "unsupported format string")
  end.

(** ** The collaborators of the module *)

(** Options of [scipy.optimize.minimize] as the module passes them. *)
Record minimize_options : Type := mkOptions {
  maxiter : option Z;
  adaptive : bool
}.

(** The functions the module calls in numpy, scipy and the rest of RMS.
    They are pure; a plate-parameter argument is the snapshot of the
    object (fields and arrays) at the call. *)
Class Externals : Type := {
  (** [np.hypot] *)
  np_hypot : f64 -> f64 -> f64;
  (** [np.sum] of a one-dimensional float64 array *)
  np_sum : list f64 -> f64;
  (** [np.radians] *)
  np_radians : f64 -> f64;
  (** [scipy.optimize.minimize(fun, x0, method='Nelder-Mead', options).x];
      an exception of the objective propagates *)
  minimize : (list f64 -> result f64) -> list f64 -> minimize_options ->
             result (list f64);
  (** [RMS.Astrometry.ApplyAstrometry.raDecToXYPP(ra, dec, jd, platepar)] *)
  raDecToXYPP : list f64 -> list f64 -> f64 -> pstate -> list f64 * list f64;
  (** [xyToRaDecPP(times, x, y, levels, platepar)], its second and third
      results *)
  xyToRaDecPP : list value -> list f64 -> list f64 -> list f64 -> pstate ->
                list f64 * list f64;
  (** [raDec2AltAz(jd, lon, lat, ra, dec)] *)
  raDec2AltAz : value -> value -> value -> value -> value -> value * value;
  (** [rotationWrtHorizon(platepar)] *)
  rotationWrtHorizon : pstate -> value;
  (** [jd2Date(jd, dt_obj)] *)
  jd2Date : value -> bool -> value;
  (** [RMS.Math.angularSeparation], on one pair of directions *)
  angularSeparation : f64 -> f64 -> f64 -> f64 -> f64
}.

(** ** Distortion type management *)

Section Platepar.
Context `{Externals}.

(** [Platepar.resetDistortionParameters] *)
Definition resetDistortionParameters : M unit :=
  l ← np_zeros 12; setattr "x_poly_fwd" (VArr l);;
  l ← np_zeros 12; setattr "y_poly_fwd" (VArr l);;
  l ← np_zeros 12; setattr "x_poly_rev" (VArr l);;
  l ← np_zeros 12; setattr "y_poly_rev" (VArr l);;
  v ← getattr "x_poly_fwd"; setattr "x_poly" v;;
  v ← getattr "y_poly_fwd"; setattr "y_poly" v;;
  v ← getattr "x_poly_fwd"; setitem_f64 v 0 F64.half;;
  v ← getattr "y_poly_fwd"; setitem_f64 v 0 F64.half;;
  v ← getattr "x_poly_rev"; setitem_f64 v 0 F64.half;;
  v ← getattr "y_poly_rev"; setitem_f64 v 0 F64.half.

Definition distortion_type_list : list string :=
  ["poly3+radial"; "radial3"; "radial5"; "radial7"].

(** [v in self.distortion_type_list]: only a string equals a string. *)
Definition in_distortion_type_list (v : value) : bool :=
  match v with
  | VStr s => bool_decide (s ∈ distortion_type_list)
  | _ => false
  end.

(** [Platepar.setDistortionType].  The message of the error is built from
    the stored type, not from the argument. *)
Definition setDistortionType (distortion_type : value) (reset_params : bool) : M unit :=
  setattr "distortion_type_list" (VList (VStr <$> distortion_type_list));;
  (if in_distortion_type_list distortion_type
   then setattr "distortion_type" distortion_type
   else
     v ← getattr "distortion_type";
     s ← lift (format_s v);
     raise (ValueError ("The distortion type is not recognized: " +:+ s)));;
  if reset_params then resetDistortionParameters else mret tt.

(** [if use_flat:] for the flag, [None] by default in [read] and
    [loadFromDict]. *)
Definition truth (use_flat : option bool) : bool := default false use_flat.

(** [Platepar.addVignettingCoeff] *)
Definition addVignettingCoeff (use_flat : option bool) : M unit :=
  v ← getattr "vignetting_coeff";
  match v with
  | VNone =>
      if truth use_flat
      then setattr "vignetting_coeff" (VFloat F64.zero)
      else
        let ref := F64.mul F64.milli (np_hypot (F64.of_Z 1280) (F64.of_Z 720)) in
        xr ← getattr "X_res";
        yr ← getattr "Y_res";
        x ← lift (as_f64 xr);
        y ← lift (as_f64 yr);
        setattr "vignetting_coeff" (VFloat (F64.div ref (np_hypot x y)))
  | _ => mret tt
  end.

(** [self.a = self.b = ... = v] *)
Definition assign_all (names : list string) (v : value) : M unit :=
  foldr (fun name k => setattr name v;; k) (mret tt) names.

(** A new object: an empty [__dict__]. *)
Definition new_object : M unit :=
  fun st => (mkState ∅ (heap st) (next_loc st) (stdout st), Ok tt).

(** [Platepar.__init__], on the new object. *)
Definition init (distortion_type : value) : M unit :=
  new_object;;
  setattr "version" (VInt 2);;
  setattr "distortion_type" distortion_type;;
  v ← getattr "distortion_type"; setDistortionType v true;;
  assign_all ["lat"; "lon"; "elev"] (VInt 0);;
  setattr "time" (VInt 0);;
  setattr "JD" (VInt 0);;
  setattr "UT_corr" (VInt 0);;
  setattr "Ho" (VInt 0);;
  setattr "X_res" (VInt 0);;
  setattr "Y_res" (VInt 0);;
  setattr "focal_length" (VInt 0);;
  setattr "fov_h" (VInt 0);;
  setattr "fov_v" (VInt 0);;
  assign_all ["RA_d"; "RA_H"; "RA_M"; "RA_S"] (VInt 0);;
  assign_all ["dec_d"; "dec_D"; "dec_M"; "dec_S"] (VInt 0);;
  setattr "pos_angle_ref" (VInt 0);;
  setattr "rotation_from_horiz" (VInt 0);;
  setattr "az_centre" (VInt 0);;
  setattr "alt_centre" (VInt 0);;
  setattr "F_scale" (VFloat F64.one);;
  setattr "mag_0" (VFloat F64.minus_2_5);;
  setattr "mag_lev" (VFloat F64.one);;
  setattr "mag_lev_stddev" (VFloat F64.zero);;
  setattr "gamma" (VFloat F64.one);;
  setattr "vignetting_coeff" (VFloat F64.zero);;
  setattr "station_code" VNone;;
  setattr "star_list" VNone;;
  setattr "auto_check_fit_refined" (VBool false);;
  setattr "auto_recalibrated" (VBool false);;
  resetDistortionParameters.

End Platepar.


(** ** Star positions *)

Section Fit.
Context `{Externals}.

(** The three columns of an N x 3 array of stars ([stars.T]). *)
Definition columns (stars : list (f64 * f64 * f64)) : list f64 * list f64 * list f64 :=
  (map (fun s => s.1.1) stars, map (fun s => s.1.2) stars, map (fun s => s.2) stars).

(** The state of a copy of the object after the assignments [c]; a deep
    copy shares nothing with the original, which the pure model gets for
    free. *)
Definition updated (platepar : pstate) (c : M unit) : pstate := (c platepar).1.

(** [getCatalogStarsImagePositions] *)
Definition getCatalogStarsImagePositions (catalog_stars : list (f64 * f64 * f64))
    (jd : f64) (platepar : pstate) : list f64 * list f64 * list f64 :=
  let '(ra_catalog, dec_catalog, mag_catalog) := columns catalog_stars in
  let '(x_array, y_array) := raDecToXYPP ra_catalog dec_catalog jd platepar in
  (x_array, y_array, mag_catalog).

(** [getPairedStarsSkyPositions] *)
Definition getPairedStarsSkyPositions (img_x img_y : list f64) (jd : f64)
    (platepar : pstate) : list f64 * list f64 :=
  let img_time := jd2Date (VFloat jd) false in
  xyToRaDecPP (replicate (length img_x) img_time) img_x img_y
              (replicate (length img_x) (F64.of_Z 1)) platepar.

(** ** The residuals minimised by the fit *)

(** [(a - b)**2], element by element. *)
Definition squared_differences (a b : list f64) : list f64 :=
  zip_with (fun x y => let d := F64.sub x y in F64.mul d d) a b.

(** [angularSeparation(np.radians(ra1), np.radians(dec1), np.radians(ra2),
    np.radians(dec2))**2], element by element. *)
Definition squared_separations (ra1 dec1 ra2 dec2 : list f64) : list f64 :=
  zip_with (fun p q =>
              let s := angularSeparation (np_radians p.1) (np_radians p.2)
                                         (np_radians q.1) (np_radians q.2) in
              F64.mul s s)
           (zip ra1 dec1) (zip ra2 dec2).

(** The copy of the object with the four candidate astrometric
    parameters. *)
Definition with_astrometry (platepar : pstate) (ra_ref dec_ref pos_angle_ref F_scale : f64)
    : pstate :=
  updated platepar
    (setattr "RA_d" (VFloat ra_ref);;
     setattr "dec_d" (VFloat dec_ref);;
     setattr "pos_angle_ref" (VFloat pos_angle_ref);;
     setattr "F_scale" (VFloat F_scale)).

(** [_calcImageResidualsAstro] *)
Definition calcImageResidualsAstro (params : list f64) (platepar : pstate) (jd : f64)
    (catalog_stars img_stars : list (f64 * f64 * f64)) : result f64 :=
  match params with
  | [ra_ref; dec_ref; pos_angle_ref; F_scale] =>
      let '(img_x, img_y, _) := columns img_stars in
      let pp_copy := with_astrometry platepar ra_ref dec_ref pos_angle_ref F_scale in
      let '(catalog_x, catalog_y, _) :=
        getCatalogStarsImagePositions catalog_stars jd pp_copy in
      Ok (np_sum (zip_with F64.add (squared_differences catalog_x img_x)
                                   (squared_differences catalog_y img_y)))
  | _ => Raise (ValueError "wrong number of values to unpack")
  end.

(** [_calcSkyResidualsAstro]; the fit does not use it. *)
Definition calcSkyResidualsAstro (params : list f64) (platepar : pstate) (jd : f64)
    (catalog_stars img_stars : list (f64 * f64 * f64)) : result f64 :=
  match params with
  | [ra_ref; dec_ref; pos_angle_ref; F_scale] =>
      let pp_copy := with_astrometry platepar ra_ref dec_ref pos_angle_ref F_scale in
      let '(img_x, img_y, _) := columns img_stars in
      let '(ra_array, dec_array) := getPairedStarsSkyPositions img_x img_y jd pp_copy in
      let '(ra_catalog, dec_catalog, _) := columns catalog_stars in
      Ok (np_sum (squared_separations ra_array dec_array ra_catalog dec_catalog))
  | _ => Raise (ValueError "wrong number of values to unpack")
  end.

(** [_calcImageResidualsDistortion] *)
Definition calcImageResidualsDistortion (params : list f64) (platepar : pstate) (jd : f64)
    (catalog_stars img_stars : list (f64 * f64 * f64)) (dimension : string) : result f64 :=
  let pp_copy :=
    updated platepar
      (if String.eqb dimension "x"
       then l ← alloc (ArrF64 params); setattr "x_poly_rev" (VArr l);;
            l ← np_zeros 12; setattr "y_poly_rev" (VArr l)
       else l ← np_zeros 12; setattr "x_poly_rev" (VArr l);;
            l ← alloc (ArrF64 params); setattr "y_poly_rev" (VArr l)) in
  let '(img_x, img_y, _) := columns img_stars in
  let '(catalog_x, catalog_y, _) :=
    getCatalogStarsImagePositions catalog_stars jd pp_copy in
  if String.eqb dimension "x"
  then Ok (np_sum (squared_differences catalog_x img_x))
  else Ok (np_sum (squared_differences catalog_y img_y)).

(** [_calcSkyResidualsDistortion] *)
Definition calcSkyResidualsDistortion (params : list f64) (platepar : pstate) (jd : f64)
    (catalog_stars img_stars : list (f64 * f64 * f64)) (dimension : string) : result f64 :=
  let pp_copy :=
    updated platepar
      (l ← alloc (ArrF64 params);
       if String.eqb dimension "x"
       then setattr "x_poly_fwd" (VArr l)
       else setattr "y_poly_fwd" (VArr l)) in
  let '(img_x, img_y, _) := columns img_stars in
  let '(ra_array, dec_array) := getPairedStarsSkyPositions img_x img_y jd pp_copy in
  let '(ra_catalog, dec_catalog, _) := columns catalog_stars in
  Ok (np_sum (squared_separations ra_array dec_array ra_catalog dec_catalog)).

(** ** The fit *)

(** The object as it is now: what [args=(self, ...)] hands to a residual,
    which copies it at every evaluation. *)
Definition snapshot : M pstate := fun st => (st, Ok st).

(** The float64 vector scipy makes of a starting point. *)
Definition as_vector (v : value) : M (list f64) :=
  match v with
  | VArr l =>
      a ← load l;
      match a with
      | ArrF64 xs => mret xs
      | ArrI64 zs => mret (F64.of_Z <$> zs)
      end
  | VList vs =>
      a ← lift (array_of_list vs);
      match a with
      | ArrF64 xs => mret xs
      | ArrI64 zs => mret (F64.of_Z <$> zs)
      end
  | _ => raise (Unmodelled "starting point that is not a vector")
  end.

(** [needle in v] for a string needle. *)
Definition contains (needle : string) (v : value) : result bool :=
  match v with
  | VStr s => Ok (bool_decide (is_Some (String.index 0 needle s)))
  | VList vs =>
      Ok (existsb (fun v => match v with VStr s => String.eqb s needle | _ => false end) vs)
  | _ => Raise (TypeError "argument is not iterable")
  end.

(** Nelder-Mead with its default options. *)
Definition astrometry_options : minimize_options := mkOptions None false.

(** [options={'maxiter': 10000, 'adaptive': True}] *)
Definition distortion_options : minimize_options := mkOptions (Some 10000%Z) true.

(** One distortion fit: minimise [residual] along [dimension] from the
    vector stored in [field], and store the result, a new array, there. *)
Definition fit_polynomial
    (residual : list f64 -> pstate -> f64 -> list (f64 * f64 * f64) ->
                list (f64 * f64 * f64) -> string -> result f64)
    (field dimension : string) (jd : f64)
    (catalog_stars img_stars : list (f64 * f64 * f64)) : M unit :=
  v ← getattr field;
  x0 ← as_vector v;
  self ← snapshot;
  x ← lift (minimize (fun params => residual params self jd catalog_stars img_stars dimension)
                     x0 distortion_options);
  l ← alloc (ArrF64 x);
  setattr field (VArr l).

(** The Y polynomial is fitted only for a type with ["poly"] in its name. *)
Definition fit_y_if_polynomial
    (residual : list f64 -> pstate -> f64 -> list (f64 * f64 * f64) ->
                list (f64 * f64 * f64) -> string -> result f64)
    (field : string) (jd : f64) (catalog_stars img_stars : list (f64 * f64 * f64)) : M unit :=
  t ← getattr "distortion_type";
  b ← lift (contains "poly" t);
  if b : bool then fit_polynomial residual field "y" jd catalog_stars img_stars else mret tt.

(** The astrometric parameters fit and the recalculation of the centre. *)
Definition fit_astrometric_parameters (jd : f64)
    (catalog_stars img_stars : list (f64 * f64 * f64)) : M unit :=
  ra ← getattr "RA_d";
  dec ← getattr "dec_d";
  pos ← getattr "pos_angle_ref";
  scale ← getattr "F_scale";
  ra ← lift (as_f64 ra);
  dec ← lift (as_f64 dec);
  pos ← lift (as_f64 pos);
  scale ← lift (as_f64 scale);
  self ← snapshot;
  x ← lift (minimize (fun params => calcImageResidualsAstro params self jd catalog_stars img_stars)
                     [ra; dec; pos; scale] astrometry_options);
  match x with
  | [ra_d; dec_d; pos_angle_ref; F_scale] =>
      setattr "RA_d" (VFloat ra_d);;
      setattr "dec_d" (VFloat dec_d);;
      setattr "pos_angle_ref" (VFloat pos_angle_ref);;
      setattr "F_scale" (VFloat F_scale)
  | _ => raise (ValueError "wrong number of values to unpack")
  end;;
  JD ← getattr "JD";
  lon ← getattr "lon";
  lat ← getattr "lat";
  ra ← getattr "RA_d";
  dec ← getattr "dec_d";
  let '(az, alt) := raDec2AltAz JD lon lat ra dec in
  setattr "az_centre" az;;
  setattr "alt_centre" alt.

(** The reverse mapping fit. *)
Definition fit_reverse_mapping (jd : f64)
    (catalog_stars img_stars : list (f64 * f64 * f64)) : M unit :=
  fit_polynomial calcImageResidualsDistortion "x_poly_rev" "x" jd catalog_stars img_stars;;
  fit_y_if_polynomial calcImageResidualsDistortion "y_poly_rev" jd catalog_stars img_stars.

(** On a first fit the forward parameters start from the reverse ones,
    the first of them inverted. *)
Definition forward_from_reverse : M unit :=
  v ← getattr "x_poly_rev"; l ← np_array v; setattr "x_poly_fwd" (VArr l);;
  v ← getattr "y_poly_rev"; l ← np_array v; setattr "y_poly_fwd" (VArr l);;
  v ← getattr "x_poly_fwd"; imul_item v 0 (-1);;
  v ← getattr "y_poly_fwd"; imul_item v 0 (-1).

(** The forward mapping fit. *)
Definition fit_forward_mapping (jd : f64)
    (catalog_stars img_stars : list (f64 * f64 * f64)) : M unit :=
  fit_polynomial calcSkyResidualsDistortion "x_poly_fwd" "x" jd catalog_stars img_stars;;
  fit_y_if_polynomial calcSkyResidualsDistortion "y_poly_fwd" jd catalog_stars img_stars.

Definition too_few_stars : string :=
  "Too few stars to fit the distortion, only the astrometric parameters where fitted!".

(** [[jd] + img_coords.tolist() + cat_coords.tolist()] for every pair. *)
Definition fit_star_list (jd : f64) (img_stars catalog_stars : list (f64 * f64 * f64))
    : value :=
  VList (zip_with (fun i c =>
                     VList (VFloat <$> [jd; i.1.1; i.1.2; i.2; c.1.1; c.1.2; c.2]))
                  img_stars catalog_stars).

(** [Platepar.fitAstrometry] *)
Definition fitAstrometry (jd : f64) (img_stars catalog_stars : list (f64 * f64 * f64))
    (first_platepar_fit : bool) : M unit :=
  fit_astrometric_parameters jd catalog_stars img_stars;;
  (if decide (12 < length img_stars)%nat
   then
     fit_reverse_mapping jd catalog_stars img_stars;;
     (if first_platepar_fit then forward_from_reverse else mret tt);;
     fit_forward_mapping jd catalog_stars img_stars
   else print too_few_stars);;
  setattr "star_list" (fit_star_list jd img_stars catalog_stars);;
  setattr "auto_check_fit_refined" (VBool false);;
  setattr "auto_recalibrated" (VBool false).

End Fit.

(** ** JSON documents *)

(** What [json.loads] makes of a text and [json.dumps] turns into one.  The
    text itself, [json.dumps(..., indent=4, sort_keys=True)] of the
    document, is not modelled. *)
Inductive json : Type :=
  | JNull
  | JBool (b : bool)
  | JInt (z : Z)
  | JFloat (x : f64)
  | JStr (s : string)
  | JList (js : list json).

(** The JSON value of a Python value; arrays and datetimes have none. *)
Fixpoint encode (v : value) : option json :=
  match v with
  | VNone => Some JNull
  | VBool b => Some (JBool b)
  | VInt z => Some (JInt z)
  | VFloat x => Some (JFloat x)
  | VStr s => Some (JStr s)
  | VList vs => JList <$> mapM encode vs
  | VArr _ => None
  | VDatetime _ => None
  end.

(** The Python value [json.loads] makes of a JSON value. *)
Fixpoint decode (j : json) : value :=
  match j with
  | JNull => VNone
  | JBool b => VBool b
  | JInt z => VInt z
  | JFloat x => VFloat x
  | JStr s => VStr s
  | JList js => VList (map decode js)
  end.


(** [json.loads] of the text of a document. *)
Definition json_loads (doc : gmap string json) : gmap string value := decode <$> doc.

(** ** Loading and writing *)

Section Persistence.
Context `{Externals}.

(** [self.__dict__ = platepar_dict] *)
Definition set_dict (platepar_dict : gmap string value) : M unit :=
  fun st => (mkState platepar_dict (heap st) (next_loc st) (stdout st), Ok tt).

(** [if not name in self.__dict__: c] *)
Definition unless_has (name : string) (c : M unit) : M unit :=
  b ← hasattr name; if b : bool then mret tt else c.

(** [self.dst = np.array(self.src)] *)
Definition array_from (dst src : string) : M unit :=
  v ← getattr src; l ← np_array v; setattr dst (VArr l).

(** [Platepar.loadFromDict] *)
Definition loadFromDict (platepar_dict : gmap string value) (use_flat : option bool)
    : M unit :=
  set_dict platepar_dict;;
  unless_has "version" (setattr "version" (VInt 1));;
  unless_has "distortion_type"
    (b ← hasattr "distortion_type";
     if b : bool
     then v ← getattr "distortion_type"; setattr "distortion_type" v;;
          delattr "distortion_type"
     else setattr "distortion_type" (VStr "poly3+radial"));;
  v ← getattr "distortion_type"; setDistortionType v false;;
  unless_has "UT_corr" (setattr "UT_corr" (VInt 0));;
  unless_has "gamma" (setattr "gamma" (VFloat F64.one));;
  unless_has "vignetting_coeff"
    (setattr "vignetting_coeff" VNone;; addVignettingCoeff use_flat);;
  unless_has "star_list" (setattr "star_list" (VList []));;
  unless_has "x_poly_fwd"
    (array_from "x_poly_fwd" "x_poly";;
     array_from "x_poly_rev" "x_poly";;
     array_from "y_poly_fwd" "y_poly";;
     array_from "y_poly_rev" "y_poly");;
  array_from "x_poly_fwd" "x_poly_fwd";;
  array_from "x_poly_rev" "x_poly_rev";;
  array_from "y_poly_fwd" "y_poly_fwd";;
  array_from "y_poly_rev" "y_poly_rev";;
  v ← getattr "x_poly_fwd"; setattr "x_poly" v;;
  v ← getattr "y_poly_fwd"; setattr "y_poly" v;;
  unless_has "rotation_from_horiz"
    (self ← snapshot; setattr "rotation_from_horiz" (rotationWrtHorizon self));;
  jd ← getattr "JD"; setattr "time" (jd2Date jd true).



End Persistence.

(** ** Reading a state *)

(** The contents of the array the field [name] refers to. *)
Definition field_array (st : pstate) (name : string) : option ndarray :=
  match attrs st !! name with
  | Some (VArr l) => heap st !! l
  | _ => None
  end.

(** The coefficient vector a reset leaves in each of the four fields. *)
Definition reset_vector : ndarray := ArrF64 (F64.half :: replicate 11 F64.zero).

(** ** Symbolic execution *)

Ltac py_unfold :=
  cbv [mbind M_bind mret M_ret getattr setattr delattr hasattr alloc load store
       print raise lift np_zeros setitem_f64 imul_item np_array tolist
       new_object assign_all foldr].

Ltac py_lookup :=
  repeat first
    [ rewrite lookup_insert_eq
    | rewrite lookup_insert_ne by (discriminate || lia)
    | rewrite lookup_delete_eq
    | rewrite lookup_delete_ne by (discriminate || lia)
    | rewrite lookup_empty ].

Ltac py_run :=
  py_unfold;
  repeat (progress (cbn -[F64.mul F64.div F64.of_Z F64.half F64.zero]; py_lookup)).

Ltac list_mem := repeat first [apply list_elem_of_here | apply list_elem_of_further].

Ltac in_list H :=
  repeat (apply elem_of_cons in H as [-> | H]); [.. | by apply elem_of_nil in H].

(** The state once [self.distortion_type_list] is assigned. *)
Definition with_type_list (st : pstate) : pstate :=
  mkState (<["distortion_type_list" := VList (VStr <$> distortion_type_list)]> (attrs st))
          (heap st) (next_loc st) (stdout st).

(** The four coefficient vectors are as the claim C1 describes them:
    forward vectors all zero, reverse vectors zero but for 0.5 at index 0. *)
Definition reset_as_claimed (st : pstate) : Prop :=
  field_array st "x_poly_fwd" = Some (ArrF64 (replicate 12 F64.zero)) /\
  field_array st "y_poly_fwd" = Some (ArrF64 (replicate 12 F64.zero)) /\
  field_array st "x_poly_rev" = Some reset_vector /\
  field_array st "y_poly_rev" = Some reset_vector.

(** An object with no field and no array allocated. *)
Definition empty_state : pstate := mkState ∅ ∅ 0 [].

(** The object with its vignetting coefficient set to [v]. *)
Definition set_vignetting (st : pstate) (v : value) : pstate :=
  mkState (<["vignetting_coeff" := v]> (attrs st)) (heap st) (next_loc st) (stdout st).

(** [0.001*np.hypot(1280, 720)/np.hypot(X_res, Y_res)] *)
Definition vignetting_default `{Externals} (x y : f64) : f64 :=
  F64.div (F64.mul F64.milli (np_hypot (F64.of_Z 1280) (F64.of_Z 720))) (np_hypot x y).

(** Collaborators for evaluating the model on concrete inputs: a
    minimizer that returns its starting point, transforms that return
    their arguments. *)
Definition trivial_externals : Externals := {|
  np_hypot := fun x y => SFsqrt F64.prec F64.emax (F64.add (F64.mul x x) (F64.mul y y));
  np_sum := fun xs => foldl F64.add F64.zero xs;
  np_radians := fun x => x;
  minimize := fun _ x0 _ => Ok x0;
  raDecToXYPP := fun ra dec _ _ => (ra, dec);
  xyToRaDecPP := fun _ x y _ _ => (x, y);
  raDec2AltAz := fun _ _ _ ra dec => (ra, dec);
  rotationWrtHorizon := fun _ => VFloat F64.zero;
  jd2Date := fun _ _ => VDatetime [];
  angularSeparation := fun _ _ _ _ => F64.zero
|}.

(** ** Frames *)

(** [c] relates every state to the one it leaves, whatever its outcome. *)
Definition preserves {A} (R : relation pstate) (c : M A) : Prop :=
  forall st, R st (c st).1.

(** Nothing but the fields [keys] differs. *)
Definition modifies (keys : list string) (st st' : pstate) : Prop :=
  heap st' = heap st /\ next_loc st' = next_loc st /\ stdout st' = stdout st /\
  forall k, k ∉ keys -> attrs st' !! k = attrs st !! k.

(** The fields the astrometric parameters fit assigns. *)
Definition astrometry_fields : list string :=
  ["RA_d"; "dec_d"; "pos_angle_ref"; "F_scale"; "az_centre"; "alt_centre"].

(** The fields that record where the parameters come from. *)
Definition provenance_fields : list string :=
  ["star_list"; "auto_check_fit_refined"; "auto_recalibrated"].

Definition fitted_fields : list string :=
  (astrometry_fields ++ provenance_fields)%list.

(** The four distortion coefficient vectors. *)
Definition vector_fields : list string :=
  ["x_poly_fwd"; "y_poly_fwd"; "x_poly_rev"; "y_poly_rev"].

(** Every array allocated so far lies below the next fresh reference. *)
Definition heap_wf (st : pstate) : Prop :=
  map_Forall (fun l _ => (l < next_loc st)%nat) (heap st).

(** The array with its element at index 0 multiplied by the int -1. *)
Definition negate_first (a : ndarray) : ndarray :=
  match a with
  | ArrF64 (x :: xs) => ArrF64 (F64.mul x (F64.of_Z (-1)) :: xs)
  | ArrI64 (z :: zs) => ArrI64 (wrap64 (z * -1) :: zs)
  | _ => a
  end.

(** [Platepar()] *)
Definition new_platepar : pstate := (init (VStr "poly3+radial") empty_state).1.

(** A star, as an image star (x, y, intensity) or a catalog star
    (ra, dec, mag). *)
Definition a_star : f64 * f64 * f64 := (F64.one, F64.half, F64.one).

(** ** Documents and reloading *)


(** Every field is kept, and a new field is one of [keys]. *)
Definition adds_only (keys : list string) (st st' : pstate) : Prop :=
  forall k, (is_Some (attrs st !! k) -> is_Some (attrs st' !! k)) /\
            (is_Some (attrs st' !! k) -> is_Some (attrs st !! k) \/ k ∈ keys).

(** The fields of a version 1 document. *)
Definition v1_fields : list string :=
  ["lon"; "lat"; "elev"; "JD"; "X_res"; "Y_res"; "focal_length"; "RA_d"; "dec_d";
   "pos_angle_ref"; "F_scale"; "mag_0"; "mag_lev"; "x_poly"; "y_poly"].

(** A field outside [except] that exists keeps its value. *)
Definition keeps (except : list string) (st st' : pstate) : Prop :=
  forall k, k ∉ except -> is_Some (attrs st !! k) -> attrs st' !! k = attrs st !! k.

(** The fields [loadFromDict] assigns whatever the dictionary holds. *)
Definition reloaded_fields : list string :=
  ["distortion_type_list"; "x_poly_fwd"; "x_poly_rev"; "y_poly_fwd"; "y_poly_rev";
   "x_poly"; "y_poly"; "time"].






(** A version 1 document. *)
Definition v1_document : gmap string value :=
  list_to_map
    [("lon", VFloat F64.one); ("lat", VFloat F64.one); ("elev", VInt 120);
     ("JD", VFloat F64.one); ("X_res", VInt 1280); ("Y_res", VInt 720);
     ("focal_length", VFloat F64.one); ("RA_d", VFloat F64.one);
     ("dec_d", VFloat F64.one); ("pos_angle_ref", VFloat F64.zero);
     ("F_scale", VFloat F64.one); ("mag_0", VFloat F64.minus_2_5);
     ("mag_lev", VFloat F64.one);
     ("x_poly", VList (VFloat <$> F64.half :: replicate 11 F64.zero));
     ("y_poly", VList (VInt <$> replicate 12 0%Z))].

(** The rigid astrometric parameters. *)
Definition rigid_fields : list string := ["RA_d"; "dec_d"; "pos_angle_ref"; "F_scale"].

(** A new object pointed at right ascension 1.0. *)
Definition pointed_platepar : pstate := (setattr "RA_d" (VFloat F64.one) new_platepar).1.

(** ** Files *)

(** What the file system holds at a file name, as far as [read] can tell:
    a text that [json.loads] rejects, the text of a JSON object whose
    members are not objects themselves, or the text of another JSON
    value. *)
Inductive file_text : Type :=
  | NotJson
  | JsonObject (doc : gmap string json)
  | JsonOther (j : json).

Section Files.
Context `{Externals}.

(** [Platepar.read], for the file [file] found at [file_name] ([None]
    when there is no such file).  It returns [False] or the format.  The
    CMN text format is outside the modelled fragment. *)
Definition read (file : option file_text) (fmt : option string) (use_flat : option bool)
    : M value :=
  match file with
  | None => mret (VBool false)
  | Some text =>
      let fmt := match fmt with
                 | Some f => f
                 | None => match text with NotJson => "txt" | _ => "json" end
                 end in
      (if String.eqb fmt "json"
       then match text with
            | JsonObject doc => loadFromDict (json_loads doc) use_flat
            | JsonOther _ => raise (TypeError "__dict__ must be set to a dictionary")
            | NotJson => raise (ValueError "Expecting value")
            end
       else raise (Unmodelled "the CMN text format"));;
      addVignettingCoeff use_flat;;
      mret (VStr fmt)
  end.

End Files.

(** A version 1 document that holds [null] for the vignetting
    coefficient. *)
Definition null_vignetting_document : gmap string json :=
  <["vignetting_coeff" := JNull]> (omap encode v1_document).



(** The fields [loadFromDict] may add before it looks at the vignetting
    coefficient. *)
Definition early_defaulted_fields : list string :=
  ["version"; "distortion_type"; "distortion_type_list"; "UT_corr"; "gamma"].

(** ** The image scale in the CMN text format *)

(** [x / y] on floats: a zero divisor raises, an overflow gives an
    infinity. *)
Definition float_truediv (x y : f64) : result f64 :=
  match y with
  | S754_zero _ => Raise ZeroDivisionError
  | _ => Ok (F64.div x y)
  end.

(** [self.F_scale = 3600/self.F_scale] in [read]: arc seconds per pixel in
    the file, pixels per degree in the object. *)
Definition read_scale (in_file : f64) : result f64 :=
  float_truediv (F64.of_Z 3600) in_file.

(** [3600/self.F_scale] in [write], the number that is then formatted. *)
Definition write_scale (F_scale : f64) : result f64 :=
  float_truediv (F64.of_Z 3600) F_scale.

(** The read conversion applied to the write conversion. *)
Definition scale_roundtrip (s : f64) : result f64 :=
  match write_scale s with
  | Ok x => read_scale x
  | Raise e => Raise e
  end.

(** The composite returns a number within the relative tolerance [tol]
    of [s]. *)
Definition reproduces (tol : R) (s : f64) : Prop :=
  exists r, scale_roundtrip s = Ok r /\
            (Rabs (F64.to_R r - F64.to_R s) <= tol * F64.to_R s)%R.

(** The float [2 ^ -1020]. *)
Definition tiny_scale : f64 := S754_finite false 4503599627370496 (-1072).

(** * Properties *)

(** ** Distortion type management *)

(** What [resetDistortionParameters] does: four new arrays, each
    [0.5, 0, ..., 0]; the legacy fields [x_poly] and [y_poly] share the
    forward arrays. *)
Lemma resetDistortionParameters_run (st : pstate) :
  resetDistortionParameters st =
  (let n := next_loc st in
   mkState
     (<["y_poly" := VArr (S n)]> (<["x_poly" := VArr n]>
      (<["y_poly_rev" := VArr (S (S (S n)))]> (<["x_poly_rev" := VArr (S (S n))]>
      (<["y_poly_fwd" := VArr (S n)]> (<["x_poly_fwd" := VArr n]> (attrs st)))))))
     (<[S (S (S n)) := reset_vector]> (<[S (S n) := reset_vector]>
      (<[S n := reset_vector]> (<[n := reset_vector]> (heap st)))))
     (S (S (S (S n)))) (stdout st), Ok tt).
Proof.
  destruct st as [a h n o]. unfold resetDistortionParameters. py_run.
  do 2 f_equal. apply map_eq. intros i.
  destruct (decide (i = S (S (S n)))) as [-> | ?]; [by py_lookup |].
  destruct (decide (i = S (S n))) as [-> | ?]; [by py_lookup |].
  destruct (decide (i = S n)) as [-> | ?]; [by py_lookup |].
  destruct (decide (i = n)) as [-> | ?]; [by py_lookup |].
  by rewrite !lookup_insert_ne by done.
Qed.

Lemma reset_fields (st st' : pstate) :
  resetDistortionParameters st = (st', Ok tt) ->
  field_array st' "x_poly_fwd" = Some reset_vector /\
  field_array st' "y_poly_fwd" = Some reset_vector /\
  field_array st' "x_poly_rev" = Some reset_vector /\
  field_array st' "y_poly_rev" = Some reset_vector.
Proof.
  rewrite resetDistortionParameters_run. intros [= <-].
  unfold field_array. cbn. py_lookup. done.
Qed.

Lemma setDistortionType_known (name : string) (reset_params : bool) (st : pstate) :
  name ∈ distortion_type_list ->
  setDistortionType (VStr name) reset_params st =
  (if reset_params then resetDistortionParameters else mret tt)
    (mkState (<["distortion_type" := VStr name]> (attrs (with_type_list st)))
             (heap st) (next_loc st) (stdout st)).
Proof.
  intros Hin. unfold setDistortionType, in_distortion_type_list.
  rewrite bool_decide_eq_true_2 by done.
  destruct reset_params; reflexivity.
Qed.

Lemma setDistortionType_unknown (name s : string) (reset_params : bool) (st : pstate) :
  name ∉ distortion_type_list ->
  attrs st !! "distortion_type" = Some (VStr s) ->
  setDistortionType (VStr name) reset_params st =
  (with_type_list st,
   Raise (ValueError ("The distortion type is not recognized: " +:+ s))).
Proof.
  intros Hin Hs. unfold setDistortionType, in_distortion_type_list.
  rewrite bool_decide_eq_false_2 by done.
  destruct st as [a h n o]. cbn in Hs. py_run. rewrite Hs. reflexivity.
Qed.

(** C1, as stated, fails: after [setDistortionType("radial3")] on a new
    object the forward vectors are not all zero, their index 0 holds 0.5
    as well. *)
Lemma C1_counterexample :
  exists st', setDistortionType (VStr "radial3") true empty_state = (st', Ok tt) /\
              ~ reset_as_claimed st'.
Proof.
  assert (Hin : "radial3" ∈ distortion_type_list) by (unfold distortion_type_list; list_mem).
  rewrite setDistortionType_known by exact Hin.
  destruct (resetDistortionParameters _) as [st' r] eqn:Hrun.
  pose proof Hrun as Hr. rewrite resetDistortionParameters_run in Hr.
  injection Hr as _ <-.
  exists st'. split; [reflexivity |].
  intros [Hx _]. apply reset_fields in Hrun as [Hx' _].
  rewrite Hx' in Hx. discriminate Hx.
Qed.

(** C1, amended: after [setDistortionType(name, reset_params=True)] for
    any of the four family names, and after [resetDistortionParameters()],
    each of the four coefficient vectors is a float64 array of length 12
    whose entries are zero except index 0, which is 0.5, in the forward
    vectors as in the reverse ones. *)
Theorem C1_reset_vectors (name : string) (st : pstate) :
  name ∈ distortion_type_list ->
  (exists st', setDistortionType (VStr name) true st = (st', Ok tt) /\
     forall f, f ∈ ["x_poly_fwd"; "y_poly_fwd"; "x_poly_rev"; "y_poly_rev"] ->
       field_array st' f = Some reset_vector) /\
  (exists st', resetDistortionParameters st = (st', Ok tt) /\
     forall f, f ∈ ["x_poly_fwd"; "y_poly_fwd"; "x_poly_rev"; "y_poly_rev"] ->
       field_array st' f = Some reset_vector) /\
  arr_length reset_vector = 12%nat /\
  reset_vector = ArrF64 (<[0%nat := F64.half]> (replicate 12 F64.zero)).
Proof.
  intros Hin. split; [| split; [| done]].
  - rewrite setDistortionType_known by done.
    rewrite resetDistortionParameters_run. eexists. split; [reflexivity |].
    intros f Hf. in_list Hf; unfold field_array; cbn; by py_lookup.
  - rewrite resetDistortionParameters_run. eexists. split; [reflexivity |].
    intros f Hf. in_list Hf; unfold field_array; cbn; by py_lookup.
Qed.

Lemma C1_reset_vectors_witness :
  "radial5" ∈ distortion_type_list /\
  exists st', resetDistortionParameters empty_state = (st', Ok tt) /\
    field_array st' "y_poly_fwd" = Some reset_vector.
Proof.
  assert (Hin : "radial5" ∈ distortion_type_list) by (unfold distortion_type_list; list_mem).
  split; [exact Hin |].
  destruct (C1_reset_vectors "radial5" empty_state Hin) as (_ & (st' & Hrun & Hf) & _).
  exists st'. split; [exact Hrun |]. apply Hf. list_mem.
Defined.

(** C6: with a family name stored in the object, as [__init__] and
    [loadFromDict] leave one before they call it, [setDistortionType(name)]
    raises the [ValueError] exactly when [name] is not one of the four
    identifiers; then the stored type, the four vector fields and every
    array are as before.  Otherwise it succeeds and [name] is the stored
    type. *)
Theorem C6_setDistortionType (name s : string) (reset_params : bool) (st : pstate) :
  attrs st !! "distortion_type" = Some (VStr s) ->
  let (st', r) := setDistortionType (VStr name) reset_params st in
  (name ∉ distortion_type_list <-> exists msg, r = Raise (ValueError msg)) /\
  (name ∉ distortion_type_list ->
     st' = with_type_list st /\
     attrs st' !! "distortion_type" = Some (VStr s) /\
     heap st' = heap st /\
     forall f, f ∈ ["x_poly_fwd"; "y_poly_fwd"; "x_poly_rev"; "y_poly_rev"] ->
       attrs st' !! f = attrs st !! f /\ field_array st' f = field_array st f) /\
  (name ∈ distortion_type_list ->
     r = Ok tt /\ attrs st' !! "distortion_type" = Some (VStr name)).
Proof.
  intros Hs. destruct (decide (name ∈ distortion_type_list)) as [Hin | Hout].
  - rewrite setDistortionType_known by done.
    assert (Hok : forall st0 : pstate,
      attrs st0 !! "distortion_type" = Some (VStr name) ->
      let (st', r) := (if reset_params then resetDistortionParameters else mret tt) st0 in
      r = Ok tt /\ attrs st' !! "distortion_type" = Some (VStr name)).
    { intros st0 H0. destruct reset_params.
      - rewrite resetDistortionParameters_run. cbn. py_lookup. done.
      - cbn. done. }
    specialize (Hok (mkState (<["distortion_type" := VStr name]> (attrs (with_type_list st)))
                             (heap st) (next_loc st) (stdout st))).
    destruct ((if reset_params then resetDistortionParameters else mret tt) _) as [st' r].
    destruct Hok as [-> Ht]; [cbn; by py_lookup |].
    split; [| split]; [| done | done].
    split; [done |]. intros [msg Hmsg]. discriminate Hmsg.
  - rewrite (setDistortionType_unknown name s) by done.
    split; [| split]; [| | done].
    + split; [eauto | done].
    + intros _. split; [done |]. cbn. py_lookup.
      split; [done |]. split; [done |].
      intros f Hf. unfold field_array.
      in_list Hf; cbn; by py_lookup.
Qed.

Lemma C6_setDistortionType_witness :
  exists st' msg,
    setDistortionType (VStr "radial9") true
      (mkState {["distortion_type" := VStr "radial3"]} ∅ 0 []) =
      (st', Raise (ValueError msg)) /\
    attrs st' !! "distortion_type" = Some (VStr "radial3").
Proof.
  pose proof (C6_setDistortionType "radial9" "radial3" true
                (mkState {["distortion_type" := VStr "radial3"]} ∅ 0 [])
                eq_refl) as H.
  destruct (setDistortionType _ _ _) as [st' r].
  destruct H as ((Hraise & _) & Hsame & _).
  assert (Hout : "radial9" ∉ distortion_type_list).
  { unfold distortion_type_list. rewrite !not_elem_of_cons. 
    repeat split; try discriminate. apply not_elem_of_nil. }
  destruct (Hraise Hout) as [msg ->].
  exists st', msg. split; [reflexivity |].
  destruct (Hsame Hout) as (_ & Hd & _). exact Hd.
Defined.

Lemma addVignettingCoeff_set `{Externals} (use_flat : option bool) (st : pstate) (c : value) :
  attrs st !! "vignetting_coeff" = Some c ->
  c <> VNone ->
  addVignettingCoeff use_flat st = (st, Ok tt).
Proof.
  intros Hc Hn. unfold addVignettingCoeff. py_run. rewrite Hc.
  destruct c; done.
Qed.

(** C7: on a model that has a vignetting field and numeric resolution
    fields, [addVignettingCoeff] returns normally; it changes nothing when
    the coefficient is not [None]; when it is [None] the coefficient
    becomes 0.0 under a true flat flag and
    [0.001*hypot(1280,720)/hypot(X_res,Y_res)] otherwise; and a second
    call, with any flag, changes nothing. *)
Theorem C7_addVignettingCoeff `{Externals} (use_flat : option bool) (st : pstate)
    (c xr yr : value) (x y : f64) :
  attrs st !! "vignetting_coeff" = Some c ->
  attrs st !! "X_res" = Some xr -> as_f64 xr = Ok x ->
  attrs st !! "Y_res" = Some yr -> as_f64 yr = Ok y ->
  exists st', addVignettingCoeff use_flat st = (st', Ok tt) /\
    (c <> VNone -> st' = st) /\
    (c = VNone -> truth use_flat = true -> st' = set_vignetting st (VFloat F64.zero)) /\
    (c = VNone -> truth use_flat = false ->
       st' = set_vignetting st (VFloat (vignetting_default x y))) /\
    forall use_flat', addVignettingCoeff use_flat' st' = (st', Ok tt).
Proof.
  intros Hc Hxr Hx Hyr Hy.
  assert (Hdec : c = VNone \/ c <> VNone) by (destruct c; (by left) || (by right)).
  destruct Hdec as [-> | Hn].
  - destruct (truth use_flat) eqn:Hflat.
    + exists (set_vignetting st (VFloat F64.zero)).
      split; [| split; [done | split; [done | split; [done |]]]].
      * unfold addVignettingCoeff. py_run. rewrite Hc, Hflat. reflexivity.
      * intros uf. apply (addVignettingCoeff_set uf _ (VFloat F64.zero)); [| done].
        cbn. by py_lookup.
    + exists (set_vignetting st (VFloat (vignetting_default x y))).
      split; [| split; [done | split; [done | split; [done |]]]].
      * unfold addVignettingCoeff. py_run. rewrite Hc, Hflat, Hxr, Hyr, Hx, Hy.
        reflexivity.
      * intros uf.
        apply (addVignettingCoeff_set uf _ (VFloat (vignetting_default x y))); [| done].
        cbn. by py_lookup.
  - exists st. pose proof (fun uf => addVignettingCoeff_set uf st c Hc Hn) as Hsame.
    split; [apply Hsame |]. repeat split; done.
Qed.

Lemma C7_addVignettingCoeff_witness :
  exists st',
    addVignettingCoeff (H := trivial_externals) None
      (mkState {["vignetting_coeff" := VNone; "X_res" := VInt 1280; "Y_res" := VInt 720]}
               ∅ 0 []) = (st', Ok tt) /\
    forall use_flat', addVignettingCoeff (H := trivial_externals) use_flat' st' = (st', Ok tt).
Proof.
  unshelve epose proof
    (C7_addVignettingCoeff (H := trivial_externals) None
       (mkState {["vignetting_coeff" := VNone; "X_res" := VInt 1280;
                  "Y_res" := VInt 720]} ∅ 0 [])
       VNone (VInt 1280) (VInt 720) (F64.of_Z 1280) (F64.of_Z 720) _ _ _ _ _) as Hw;
    [vm_compute; reflexivity .. |].
  destruct Hw as (st' & Hrun & _ & _ & _ & Hagain).
  exists st'. split; [exact Hrun | exact Hagain].
Defined.

(** ** Frame reasoning *)

#[global] Instance modifies_preorder keys : PreOrder (modifies keys).
Proof.
  split.
  - intros st. unfold modifies. auto.
  - intros st1 st2 st3 (Hh & Hn & Ho & Ha) (Hh' & Hn' & Ho' & Ha').
    unfold modifies. repeat split; try congruence.
    intros k Hk. rewrite Ha', Ha by done. done.
Qed.

Section Preserves.
Context (R : relation pstate) `{!PreOrder R}.

Lemma preserves_bind {A B} (c : M A) (k : A -> M B) :
  preserves R c -> (forall a, preserves R (k a)) -> preserves R (c ≫= k).
Proof.
  intros Hc Hk st. unfold mbind, M_bind. specialize (Hc st).
  destruct (c st) as [st1 [a | e]]; cbn in *; [| done].
  etrans; [exact Hc | apply Hk].
Qed.

Lemma preserves_ret {A} (a : A) : preserves R (mret a).
Proof. intros st. cbn. reflexivity. Qed.

Lemma preserves_raise {A} e : preserves R (raise (A:=A) e).
Proof. intros st. cbn. reflexivity. Qed.

Lemma preserves_lift {A} (r : result A) : preserves R (lift r).
Proof. intros st. cbn. reflexivity. Qed.

Lemma preserves_getattr name : preserves R (getattr name).
Proof. intros st. unfold getattr. destruct (attrs st !! name); cbn; reflexivity. Qed.

Lemma preserves_hasattr name : preserves R (hasattr name).
Proof. intros st. cbn. reflexivity. Qed.

Lemma preserves_snapshot : preserves R snapshot.
Proof. intros st. cbn. reflexivity. Qed.

End Preserves.

Lemma preserves_setattr keys name v :
  name ∈ keys -> preserves (modifies keys) (setattr name v).
Proof.
  intros Hin st. unfold modifies, setattr. cbn. repeat split. intros k Hk.
  rewrite lookup_insert_ne; [done |]. intros ->. done.
Qed.

Ltac preserves_step :=
  first
    [ apply preserves_bind; [typeclasses eauto | | intros ?]
    | apply preserves_ret; typeclasses eauto
    | apply preserves_raise; typeclasses eauto
    | apply preserves_lift; typeclasses eauto
    | apply preserves_getattr; typeclasses eauto
    | apply preserves_hasattr; typeclasses eauto
    | apply preserves_snapshot; typeclasses eauto
    | apply preserves_setattr; list_mem
    | match goal with
      | |- preserves _ (match ?x with _ => _ end) => destruct x
      | |- preserves _ (let '(_, _) := ?x in _) => destruct x
      end ].

Lemma fit_astrometric_parameters_frame `{Externals} jd cat img :
  preserves (modifies astrometry_fields) (fit_astrometric_parameters jd cat img).
Proof.
  unfold fit_astrometric_parameters, astrometry_fields.
  repeat preserves_step.
Qed.

Lemma fitAstrometry_few_stars `{Externals} jd img cat first (st : pstate) :
  (length img <= 12)%nat ->
  fitAstrometry jd img cat first st =
  match fit_astrometric_parameters jd cat img st with
  | (st1, Ok _) =>
      (mkState (<["auto_recalibrated" := VBool false]>
                (<["auto_check_fit_refined" := VBool false]>
                 (<["star_list" := fit_star_list jd img cat]> (attrs st1))))
               (heap st1) (next_loc st1) (stdout st1 ++ [too_few_stars])%list, Ok tt)
  | (st1, Raise e) => (st1, Raise e)
  end.
Proof.
  intros Hlen. unfold fitAstrometry.
  destruct (decide (12 < length img)%nat) as [? | _]; [lia |].
  unfold mbind at 1. unfold M_bind.
  destruct (fit_astrometric_parameters jd cat img st) as [st1 [[] | e]]; reflexivity.
Qed.

(** C3, amended: a [fitAstrometry] call with 12 star pairs or fewer leaves
    the four distortion vectors as they were, the fields and the arrays
    they refer to (no array at all is touched); of all the fields only the
    rigid astrometric parameters, the centre [az_centre], [alt_centre]
    recomputed from them and the provenance fields can differ; when it
    returns, the warning has been printed, the star list holds the pairs
    just used and both flags are false; and it returns whenever the
    astrometric parameters fit does. *)
Theorem C3_few_stars `{Externals} jd img cat first (st : pstate) :
  (length img <= 12)%nat ->
  let (st', r) := fitAstrometry jd img cat first st in
  (forall f, f ∈ vector_fields ->
     attrs st' !! f = attrs st !! f /\ field_array st' f = field_array st f) /\
  heap st' = heap st /\
  (forall k, k ∉ fitted_fields -> attrs st' !! k = attrs st !! k) /\
  (r = Ok tt ->
     stdout st' = (stdout st ++ [too_few_stars])%list /\
     attrs st' !! "star_list" = Some (fit_star_list jd img cat) /\
     attrs st' !! "auto_check_fit_refined" = Some (VBool false) /\
     attrs st' !! "auto_recalibrated" = Some (VBool false)) /\
  ((fit_astrometric_parameters jd cat img st).2 = Ok tt -> r = Ok tt).
Proof.
  intros Hlen. rewrite fitAstrometry_few_stars by done.
  pose proof (fit_astrometric_parameters_frame jd cat img st) as (Hh & Hn & Ho & Ha).
  destruct (fit_astrometric_parameters jd cat img st) as [st1 [[] | e]]; cbn in *.
  - assert (Hk : forall k, k ∉ fitted_fields ->
               (<["auto_recalibrated" := VBool false]>
                 (<["auto_check_fit_refined" := VBool false]>
                  (<["star_list" := fit_star_list jd img cat]> (attrs st1)))) !! k
               = attrs st !! k).
    { intros k Hk. unfold fitted_fields in Hk. rewrite not_elem_of_app in Hk. destruct Hk as [Hk1 Hk2].
      unfold provenance_fields in Hk2. rewrite !not_elem_of_cons in Hk2.
      destruct Hk2 as (? & ? & ? & _).
      rewrite !lookup_insert_ne by done. by apply Ha. }
    split; [| split; [done | split; [done | split; [| done]]]];
      [| intros _; rewrite Ho; by py_lookup].
    intros f Hf.
    assert (Hf' : attrs {| attrs := <["auto_recalibrated" := VBool false]>
                 (<["auto_check_fit_refined" := VBool false]>
                  (<["star_list" := fit_star_list jd img cat]> (attrs st1)));
                 heap := heap st1; next_loc := next_loc st1;
                 stdout := (stdout st1 ++ [too_few_stars])%list |} !! f = attrs st !! f).
    { apply Hk. unfold vector_fields in Hf. in_list Hf;
        unfold fitted_fields, astrometry_fields, provenance_fields; cbn;
        rewrite !not_elem_of_cons; repeat split; try discriminate; apply not_elem_of_nil. }
    split; [exact Hf' |]. unfold field_array. rewrite Hf'. cbn. by rewrite Hh.
  - split; [| split; [done | split; [| split; [done | done]]]].
    + intros f Hf.
      assert (Hf' : attrs st1 !! f = attrs st !! f).
      { apply Ha. unfold vector_fields in Hf. in_list Hf;
          unfold astrometry_fields; 
          rewrite !not_elem_of_cons; repeat split; try discriminate; apply not_elem_of_nil. }
      split; [exact Hf' |]. unfold field_array. by rewrite Hf', Hh.
    + intros k Hk. apply Ha. intros Hin. apply Hk.
      change (k ∈ fitted_fields). unfold fitted_fields. apply elem_of_app. by left.
Qed.

(** C3, as stated, fails: a fit on one pair changes [az_centre], which is
    neither a rigid astrometric parameter nor a provenance field. *)
Lemma C3_counterexample :
  exists st',
    (length [a_star] <= 12)%nat /\
    (fitAstrometry (H := trivial_externals) F64.one [a_star] [a_star] false pointed_platepar
     = (st', Ok tt)) /\
    ("az_centre" ∉ (rigid_fields ++ provenance_fields)%list) /\
    attrs st' !! "az_centre" <> attrs pointed_platepar !! "az_centre".
Proof.
  exists (fitAstrometry (H := trivial_externals) F64.one [a_star] [a_star] false
            pointed_platepar).1.
  split; [cbn; lia |]. split; [vm_compute; reflexivity |]. split.
  - unfold rigid_fields, provenance_fields. cbn [app].
    rewrite !not_elem_of_cons. repeat split; try discriminate. apply not_elem_of_nil.
  - intros Heq. vm_compute in Heq. discriminate Heq.
Qed.


Lemma imul_item_first (l : loc) (a : ndarray) (st : pstate) :
  heap st !! l = Some a -> (0 < arr_length a)%nat ->
  imul_item (VArr l) 0 (-1) st =
  (mkState (attrs st) (<[l := negate_first a]> (heap st)) (next_loc st) (stdout st), Ok tt).
Proof.
  intros Hl Hlen. unfold imul_item. py_unfold. rewrite Hl.
  destruct a as [[| x xs] | [| z zs]]; cbn in Hlen; try lia; reflexivity.
Qed.

Lemma forward_from_reverse_run (st : pstate) (lx ly : loc) (ax ay : ndarray) :
  heap_wf st ->
  attrs st !! "x_poly_rev" = Some (VArr lx) -> heap st !! lx = Some ax ->
  attrs st !! "y_poly_rev" = Some (VArr ly) -> heap st !! ly = Some ay ->
  (0 < arr_length ax)%nat -> (0 < arr_length ay)%nat ->
  forward_from_reverse st =
  (let n := next_loc st in
   mkState (<["y_poly_fwd" := VArr (S n)]> (<["x_poly_fwd" := VArr n]> (attrs st)))
           (<[S n := negate_first ay]> (<[n := negate_first ax]> (heap st)))
           (S (S n)) (stdout st), Ok tt).
Proof.
  intros Hwf Hx Hlx Hy Hly Hax Hay.
  pose proof (map_Forall_lookup_1 _ _ _ _ Hwf Hlx) as Hltx.
  pose proof (map_Forall_lookup_1 _ _ _ _ Hwf Hly) as Hlty.
  destruct st as [a h n o]. cbn in *.
  unfold forward_from_reverse. py_unfold.
  destruct ax as [[| x xs] | [| x xs]]; cbn in Hax; try lia;
  destruct ay as [[| y ys] | [| y ys]]; cbn in Hay; try lia;
  repeat (first [ rewrite Hx | rewrite Hlx | rewrite Hy | rewrite Hly
                | progress py_lookup
                | progress cbn -[F64.mul F64.of_Z wrap64] ]).
  all: cbn -[F64.mul F64.of_Z wrap64].
  all: do 2 f_equal; apply map_eq; intros i;
    (destruct (decide (i = S n)) as [-> | ?]; [by py_lookup |]);
    (destruct (decide (i = n)) as [-> | ?]; [by py_lookup |]);
    by rewrite !lookup_insert_ne by done.
Qed.

(** C5: in a [fitAstrometry] call with [first_platepar_fit] true and more
    than 12 star pairs, once the reverse fit is done and before the
    forward fit starts, [x_poly_fwd] and [y_poly_fwd] are two new arrays
    holding the contents of [x_poly_rev] and [y_poly_rev] with the element
    at index 0 multiplied by -1; the reverse arrays, like every array that
    existed, keep their contents, and the forward fit and the provenance
    update run from that state. *)
Theorem C5_first_fit `{Externals} jd img cat (st st2 : pstate) (lx ly : loc) (ax ay : ndarray) :
  (12 < length img)%nat ->
  (fit_astrometric_parameters jd cat img;; fit_reverse_mapping jd cat img) st = (st2, Ok tt) ->
  heap_wf st2 ->
  attrs st2 !! "x_poly_rev" = Some (VArr lx) -> heap st2 !! lx = Some ax ->
  attrs st2 !! "y_poly_rev" = Some (VArr ly) -> heap st2 !! ly = Some ay ->
  (0 < arr_length ax)%nat -> (0 < arr_length ay)%nat ->
  exists st3,
    fitAstrometry jd img cat true st =
      (fit_forward_mapping jd cat img;;
       setattr "star_list" (fit_star_list jd img cat);;
       setattr "auto_check_fit_refined" (VBool false);;
       setattr "auto_recalibrated" (VBool false)) st3 /\
    forward_from_reverse st2 = (st3, Ok tt) /\
    field_array st3 "x_poly_fwd" = Some (negate_first ax) /\
    field_array st3 "y_poly_fwd" = Some (negate_first ay) /\
    field_array st3 "x_poly_rev" = Some ax /\
    field_array st3 "y_poly_rev" = Some ay /\
    attrs st3 !! "x_poly_fwd" = Some (VArr (next_loc st2)) /\
    attrs st3 !! "y_poly_fwd" = Some (VArr (S (next_loc st2))) /\
    lx <> next_loc st2 /\ lx <> S (next_loc st2) /\
    ly <> next_loc st2 /\ ly <> S (next_loc st2) /\
    (forall l, (l < next_loc st2)%nat -> heap st3 !! l = heap st2 !! l) /\
    (forall k, k <> "x_poly_fwd" -> k <> "y_poly_fwd" -> attrs st3 !! k = attrs st2 !! k).
Proof.
  intros Hlen Hrun Hwf Hx Hlx Hy Hly Hax Hay.
  pose proof (map_Forall_lookup_1 _ _ _ _ Hwf Hlx) as Hltx.
  pose proof (map_Forall_lookup_1 _ _ _ _ Hwf Hly) as Hlty. cbn in Hltx, Hlty.
  pose proof (forward_from_reverse_run st2 lx ly ax ay Hwf Hx Hlx Hy Hly Hax Hay) as Hffr.
  cbn zeta in Hffr. eexists. split; [| split; [exact Hffr |]].
  - unfold fitAstrometry.
    destruct (decide (12 < length img)%nat) as [_ | ?]; [| lia].
    unfold fit_reverse_mapping in *. revert Hrun.
    unfold mbind, M_bind.
    destruct (fit_astrometric_parameters jd cat img st) as [st1 [[] | e]]; [| by intros [= _ ?]].
    destruct (fit_polynomial _ _ _ _ _ _ st1) as [st1' [[] | e]]; [| by intros [= _ ?]].
    intros ->. rewrite Hffr. reflexivity.
  - unfold field_array. cbn.
    repeat (first [ rewrite Hx | rewrite Hlx | rewrite Hy | rewrite Hly
                  | progress py_lookup | progress cbn ]).
    repeat split; try done; try lia.
    + intros l Hl. by rewrite !lookup_insert_ne by lia.
    + intros k Hk1 Hk2. by rewrite !lookup_insert_ne by done.
Qed.

Lemma C3_few_stars_witness :
  (length [a_star] <= 12)%nat /\
  exists st',
    fitAstrometry (H := trivial_externals) F64.one [a_star] [a_star] false new_platepar
      = (st', Ok tt) /\
    field_array st' "x_poly_rev" = field_array new_platepar "x_poly_rev".
Proof.
  assert (Hlen : (length [a_star] <= 12)%nat) by (cbn; lia).
  split; [exact Hlen |].
  pose proof (C3_few_stars (H := trivial_externals) F64.one [a_star] [a_star] false
                new_platepar Hlen) as Hw.
  destruct (fitAstrometry _ _ _ _ _) as [st' r].
  destruct Hw as (Hv & _ & _ & _ & Hok).
  exists st'. split.
  - f_equal. apply Hok. vm_compute. reflexivity.
  - apply Hv. unfold vector_fields. list_mem.
Defined.

Lemma C5_first_fit_witness :
  exists st3,
    forward_from_reverse
      ((fit_astrometric_parameters (H := trivial_externals) F64.one
          (replicate 13 a_star) (replicate 13 a_star);;
        fit_reverse_mapping (H := trivial_externals) F64.one
          (replicate 13 a_star) (replicate 13 a_star)) new_platepar).1 = (st3, Ok tt) /\
    field_array st3 "x_poly_fwd" = Some (negate_first reset_vector) /\
    field_array st3 "x_poly_rev" = Some reset_vector.
Proof.
  unshelve epose proof
    (C5_first_fit (H := trivial_externals) F64.one (replicate 13 a_star) (replicate 13 a_star)
       new_platepar
       ((fit_astrometric_parameters (H := trivial_externals) F64.one
           (replicate 13 a_star) (replicate 13 a_star);;
         fit_reverse_mapping (H := trivial_externals) F64.one
           (replicate 13 a_star) (replicate 13 a_star)) new_platepar).1
       8%nat 9%nat reset_vector reset_vector _ _ _ _ _ _ _ _ _) as Hw.
  - cbn. lia.
  - vm_compute. reflexivity.
  - apply (bool_decide_unpack _). vm_compute. exact I.
  - vm_compute. reflexivity.
  - vm_compute. reflexivity.
  - vm_compute. reflexivity.
  - vm_compute. reflexivity.
  - cbn. lia.
  - cbn. lia.
  - destruct Hw as (st3 & _ & Hrun & Hxf & _ & Hxr & _).
    exists st3. repeat split; assumption.
Defined.

(** ** Loading from a dictionary *)

#[global] Instance adds_only_preorder keys : PreOrder (adds_only keys).
Proof.
  split.
  - intros st k. auto.
  - intros st1 st2 st3 H12 H23 k.
    destruct (H12 k) as [Ha Hb], (H23 k) as [Hc Hd]. split; [auto |].
    intros H3. destruct (Hd H3); auto.
Qed.

Lemma adds_only_setattr keys name v :
  name ∈ keys -> preserves (adds_only keys) (setattr name v).
Proof.
  intros Hin st k. unfold setattr. cbn.
  destruct (decide (name = k)) as [<- | Hne].
  - rewrite lookup_insert_eq. split; [eauto | auto].
  - rewrite lookup_insert_ne by done. auto.
Qed.

Lemma np_array_attrs v st : attrs (np_array v st).1 = attrs st.
Proof.
  unfold np_array. destruct v; try reflexivity; py_unfold.
  - destruct (array_of_list vs); reflexivity.
  - destruct (heap st !! l); reflexivity.
Qed.

Lemma adds_only_np_array keys v : preserves (adds_only keys) (np_array v).
Proof. intros st k. rewrite np_array_attrs. auto. Qed.

Ltac adds_step :=
  first
    [ apply preserves_bind; [typeclasses eauto | | intros ?]
    | apply preserves_ret; typeclasses eauto
    | apply preserves_raise; typeclasses eauto
    | apply preserves_lift; typeclasses eauto
    | apply preserves_getattr; typeclasses eauto
    | apply preserves_hasattr; typeclasses eauto
    | apply preserves_snapshot; typeclasses eauto
    | apply adds_only_np_array
    | apply adds_only_setattr; list_mem
    | match goal with
      | |- preserves _ (match ?x with _ => _ end) => destruct x
      | |- preserves _ (let '(_, _) := ?x in _) => destruct x
      end ].

Lemma adds_only_default_type keys :
  "distortion_type" ∈ keys ->
  preserves (adds_only keys)
    (unless_has "distortion_type"
       (b ← hasattr "distortion_type";
        if b : bool
        then v ← getattr "distortion_type"; setattr "distortion_type" v;;
             delattr "distortion_type"
        else setattr "distortion_type" (VStr "poly3+radial"))).
Proof.
  intros Hin st. unfold unless_has. py_unfold.
  destruct (attrs st !! "distortion_type") as [v |] eqn:Hv; cbn.
  - reflexivity.
  - rewrite Hv. cbn. apply (adds_only_setattr keys "distortion_type" _ Hin st).
Qed.



Ltac not_in_list :=
  rewrite ?not_elem_of_cons; repeat split; try discriminate; apply not_elem_of_nil.

Lemma absent_field (doc : gmap string value) (keys : list string) (k : string) :
  dom doc = list_to_set keys -> k ∉ keys -> doc !! k = None.
Proof.
  intros Hdom Hk. apply not_elem_of_dom. rewrite Hdom, elem_of_list_to_set. done.
Qed.

Lemma present_field (doc : gmap string value) (keys : list string) (k : string) :
  dom doc = list_to_set keys -> k ∈ keys -> is_Some (doc !! k).
Proof.
  intros Hdom Hk. apply elem_of_dom. rewrite Hdom, elem_of_list_to_set. done.
Qed.


(** C4: loading a dictionary whose keys are the fifteen version 1 keys,
    with lists of numbers for [x_poly] and [y_poly] and numbers for
    [X_res] and [Y_res], returns normally with [version] 1,
    [distortion_type] ["poly3+radial"], [UT_corr] 0, [gamma] 1.0, the
    arrays of [x_poly] in [x_poly_fwd], [x_poly_rev] and [x_poly] (and
    likewise for y), an empty star list and a vignetting coefficient that
    is a float: 0.0 under a true flat flag, the scaled default otherwise. *)
Theorem C4_version_1_document `{Externals} (doc : gmap string value) use_flat (st : pstate)
    (xs ys : list value) (ax ay : ndarray) (xr yr : value) (x y : f64) :
  dom doc = list_to_set v1_fields ->
  doc !! "x_poly" = Some (VList xs) -> array_of_list xs = Ok ax ->
  doc !! "y_poly" = Some (VList ys) -> array_of_list ys = Ok ay ->
  doc !! "X_res" = Some xr -> as_f64 xr = Ok x ->
  doc !! "Y_res" = Some yr -> as_f64 yr = Ok y ->
  exists st', loadFromDict doc use_flat st = (st', Ok tt) /\
    attrs st' !! "version" = Some (VInt 1) /\
    attrs st' !! "distortion_type" = Some (VStr "poly3+radial") /\
    attrs st' !! "UT_corr" = Some (VInt 0) /\
    attrs st' !! "gamma" = Some (VFloat F64.one) /\
    field_array st' "x_poly_fwd" = Some ax /\
    field_array st' "x_poly_rev" = Some ax /\
    field_array st' "x_poly" = Some ax /\
    field_array st' "y_poly_fwd" = Some ay /\
    field_array st' "y_poly_rev" = Some ay /\
    field_array st' "y_poly" = Some ay /\
    attrs st' !! "star_list" = Some (VList []) /\
    attrs st' !! "vignetting_coeff" =
      Some (VFloat (if truth use_flat then F64.zero else vignetting_default x y)).
Proof.
  intros Hdom Hxp Hax Hyp Hay Hxr Hx Hyr Hy.
  assert (Hversion : doc !! "version" = None) by (apply (absent_field _ _ _ Hdom); unfold v1_fields; not_in_list).
  assert (Htype : doc !! "distortion_type" = None) by (apply (absent_field _ _ _ Hdom); unfold v1_fields; not_in_list).
  assert (Htypes : doc !! "distortion_type_list" = None) by (apply (absent_field _ _ _ Hdom); unfold v1_fields; not_in_list).
  assert (Hut : doc !! "UT_corr" = None) by (apply (absent_field _ _ _ Hdom); unfold v1_fields; not_in_list).
  assert (Hgamma : doc !! "gamma" = None) by (apply (absent_field _ _ _ Hdom); unfold v1_fields; not_in_list).
  assert (Hvig : doc !! "vignetting_coeff" = None) by (apply (absent_field _ _ _ Hdom); unfold v1_fields; not_in_list).
  assert (Hstars : doc !! "star_list" = None) by (apply (absent_field _ _ _ Hdom); unfold v1_fields; not_in_list).
  assert (Hxf : doc !! "x_poly_fwd" = None) by (apply (absent_field _ _ _ Hdom); unfold v1_fields; not_in_list).
  assert (Hxrv : doc !! "x_poly_rev" = None) by (apply (absent_field _ _ _ Hdom); unfold v1_fields; not_in_list).
  assert (Hyf : doc !! "y_poly_fwd" = None) by (apply (absent_field _ _ _ Hdom); unfold v1_fields; not_in_list).
  assert (Hyrv : doc !! "y_poly_rev" = None) by (apply (absent_field _ _ _ Hdom); unfold v1_fields; not_in_list).
  assert (Hrot : doc !! "rotation_from_horiz" = None) by (apply (absent_field _ _ _ Hdom); unfold v1_fields; not_in_list).
  destruct (present_field doc v1_fields "JD" Hdom) as [jd Hjd]; [unfold v1_fields; list_mem |].
  destruct st as [a0 h n o].
  unfold loadFromDict, unless_has, array_from, setDistortionType, addVignettingCoeff,
    set_dict, snapshot, in_distortion_type_list.
  py_unfold.
  assert (Hpoly : bool_decide ("poly3+radial" ∈ distortion_type_list) = true)
    by (apply bool_decide_eq_true_2; unfold distortion_type_list; list_mem).
  destruct (truth use_flat) eqn:Hflat.
  all: repeat (first [ rewrite Hpoly | rewrite Hflat | rewrite Hversion | rewrite Htype | rewrite Htypes | rewrite Hut
                | rewrite Hgamma | rewrite Hvig | rewrite Hstars | rewrite Hxf | rewrite Hxrv
                | rewrite Hyf | rewrite Hyrv | rewrite Hrot | rewrite Hjd
                | rewrite Hxp | rewrite Hyp | rewrite Hxr | rewrite Hyr
                | rewrite Hx | rewrite Hy | rewrite Hax | rewrite Hay
                | progress py_lookup
                | progress cbn -[F64.mul F64.div F64.of_Z F64.half F64.zero F64.one
                                 array_of_list as_f64 np_hypot vignetting_default truth
                                 distortion_type_list] ]).
  all: eexists; (split; [reflexivity |]); unfold field_array;
    repeat (first [progress py_lookup | progress cbn -[F64.zero F64.one vignetting_default]]);
    repeat split; reflexivity.
Qed.

(** ** Writing and reading back *)


Lemma all_numbers_floats (xs : list f64) : all_numbers (VFloat <$> xs) = Some xs.
Proof.
  unfold all_numbers. induction xs as [| x xs IH]; [reflexivity |].
  cbn. cbn in IH. rewrite IH. reflexivity.
Qed.

Lemma all_ints_ints (zs zs' : list Z) : all_ints (VInt <$> zs) = Some zs' -> zs' = zs.
Proof.
  unfold all_ints. revert zs'. induction zs as [| z zs IH]; intros zs' Hz; cbn in Hz.
  - by injection Hz as <-.
  - destruct (int64_range z); [| discriminate]. cbn in Hz.
    destruct (mapM _ (VInt <$> zs)) as [l |] eqn:Hl; [| discriminate].
    cbn in Hz. injection Hz as <-. f_equal. by apply IH.
Qed.

Lemma all_numbers_ints (zs : list Z) :
  all_ints (VInt <$> zs) = None -> all_numbers (VInt <$> zs) = None.
Proof.
  unfold all_ints, all_numbers. induction zs as [| z zs IH]; intros Hz; cbn in *.
  - discriminate.
  - destruct (int64_range z); [| reflexivity]. cbn in *.
    destruct (mapM _ (VInt <$> zs)) as [l |] eqn:Hl; [discriminate |].
    rewrite IH by done. reflexivity.
Qed.

(** [np.array(a.tolist())] has the contents of [a], and its dtype but for
    an empty int64 array. *)
Lemma array_of_tolist (a a' : ndarray) :
  array_of_list (array_values a) = Ok a' -> a <> ArrI64 [] -> a' = a.
Proof.
  intros Ha Hne. destruct a as [xs | zs]; cbn in Ha.
  - destruct xs as [| x xs]; cbn in Ha; [by injection Ha as <- |].
    change (VFloat x :: (VFloat <$> xs)) with (VFloat <$> (x :: xs)) in Ha.
    rewrite all_numbers_floats in Ha. by injection Ha as <-.
  - destruct zs as [| z zs]; [done |].
    unfold array_of_list in Ha.
    change (VInt <$> z :: zs) with (VInt z :: (VInt <$> zs)) in Ha. cbv iota in Ha.
    change (VInt z :: (VInt <$> zs)) with (VInt <$> (z :: zs)) in Ha.
    destruct (all_ints (VInt <$> z :: zs)) as [zs' |] eqn:Hz.
    + injection Ha as <-. f_equal. by apply all_ints_ints.
    + rewrite all_numbers_ints in Ha by done. discriminate.
Qed.


Lemma bind_ok_inv {A B} (c : M A) (k : A -> M B) (st st' : pstate) (b : B) :
  (c ≫= k) st = (st', Ok b) ->
  exists a st1, c st = (st1, Ok a) /\ k a st1 = (st', Ok b).
Proof.
  unfold mbind, M_bind. destruct (c st) as [st1 [a | e]]; [eauto | discriminate].
Qed.

#[global] Instance keeps_preorder except : PreOrder (keeps except).
Proof.
  split.
  - intros st k _ _. reflexivity.
  - intros st1 st2 st3 H12 H23 k Hk Hs.
    rewrite H23; [by apply H12 | done |]. rewrite H12 by done. done.
Qed.

Lemma keeps_setattr except name v :
  name ∈ except -> preserves (keeps except) (setattr name v).
Proof.
  intros Hin st k Hk _. unfold setattr. cbn.
  rewrite lookup_insert_ne; [done |]. intros ->. done.
Qed.

Lemma keeps_modifies except keys (st st' : pstate) :
  modifies keys st st' -> (forall k, k ∈ keys -> k ∈ except \/ attrs st !! k = None) ->
  keeps except st st'.
Proof.
  intros (_ & _ & _ & Ha) Hkeys k Hk Hs.
  destruct (decide (k ∈ keys)) as [Hin | Hout]; [| by apply Ha].
  destruct (Hkeys k Hin) as [? | Hnone]; [done |].
  rewrite Hnone in Hs. by destruct Hs.
Qed.

Lemma keeps_unless_has except name (c : M unit) :
  preserves (modifies [name]) c -> preserves (keeps except) (unless_has name c).
Proof.
  intros Hc st. unfold unless_has, hasattr, mbind, M_bind.
  destruct (attrs st !! name) as [v |] eqn:Hv; cbn.
  - reflexivity.
  - apply (keeps_modifies _ [name]); [apply Hc |].
    intros k ->%list_elem_of_singleton. by right.
Qed.

Lemma keeps_np_array except v : preserves (keeps except) (np_array v).
Proof.
  intros st k _ _. unfold np_array. destruct v; try reflexivity; py_unfold.
  - destruct (array_of_list vs); reflexivity.
  - destruct (heap st !! l); reflexivity.
Qed.

Lemma keeps_default_type except :
  preserves (keeps except)
    (unless_has "distortion_type"
       (b ← hasattr "distortion_type";
        if b : bool
        then v ← getattr "distortion_type"; setattr "distortion_type" v;;
             delattr "distortion_type"
        else setattr "distortion_type" (VStr "poly3+radial"))).
Proof.
  intros st. unfold unless_has. py_unfold.
  destruct (attrs st !! "distortion_type") as [v |] eqn:Hv; cbn.
  - reflexivity.
  - rewrite Hv. cbn. intros k Hk Hs. cbn in *. rewrite lookup_insert_ne; [done |].
    intros <-. rewrite Hv in Hs. by destruct Hs.
Qed.

Lemma keeps_setDistortionType except :
  "distortion_type_list" ∈ except ->
  preserves (keeps except) (v ← getattr "distortion_type"; setDistortionType v false).
Proof.
  intros Hin st. unfold setDistortionType. py_unfold.
  destruct (attrs st !! "distortion_type") as [v |] eqn:Hv; cbn; [| reflexivity].
  destruct (in_distortion_type_list v); cbn.
  - intros k Hk Hs. cbn in *. destruct (decide (k = "distortion_type")) as [-> | Hne].
    + by rewrite lookup_insert_eq.
    + rewrite !lookup_insert_ne; [done | | done]. intros <-. done.
  - py_lookup. rewrite Hv. cbn.
    destruct (format_s v); cbn; intros k Hk Hs; cbn in *;
      (rewrite lookup_insert_ne; [done |]; intros <-; done).
Qed.

Lemma preserves_bind2 {A B C} (R : relation pstate) `{!PreOrder R}
    (c : M A) (f : A -> M B) (g : B -> M C) :
  preserves R (c ≫= f) -> (forall b, preserves R (g b)) ->
  preserves R (c ≫= fun a => f a ≫= g).
Proof.
  intros Hcf Hg st. specialize (Hcf st). revert Hcf. unfold mbind, M_bind.
  destruct (c st) as [s1 [a | e]]; cbn; [| done].
  destruct (f a s1) as [s2 [b | e]]; cbn; [| done].
  intros Hcf. etrans; [exact Hcf | apply Hg].
Qed.

Ltac keeps_step :=
  first
    [ apply keeps_default_type
    | apply keeps_setDistortionType; list_mem
    | lazymatch goal with |- preserves _ (unless_has _ _) => idtac end;
      apply keeps_unless_has; unfold addVignettingCoeff; repeat preserves_step
    | apply preserves_bind; [typeclasses eauto | | intros ?]
    | apply preserves_ret; typeclasses eauto
    | apply preserves_raise; typeclasses eauto
    | apply preserves_lift; typeclasses eauto
    | apply preserves_getattr; typeclasses eauto
    | apply preserves_hasattr; typeclasses eauto
    | apply preserves_snapshot; typeclasses eauto
    | apply keeps_np_array
    | apply keeps_setattr; list_mem
    | match goal with
      | |- preserves _ (match ?x with _ => _ end) => destruct x
      end ].

Lemma loadFromDict_keeps `{Externals} doc use_flat (st : pstate) :
  keeps reloaded_fields
    (mkState doc (heap st) (next_loc st) (stdout st))
    (loadFromDict doc use_flat st).1.
Proof.
  unfold loadFromDict.
  match goal with
  | |- keeps ?D ?s0 ((set_dict _ ≫= ?k) _).1 =>
      change (keeps D s0 ((k tt) s0).1); generalize s0
  end.
  cbv beta.
  match goal with
  | |- forall s, keeps ?D s (?c s).1 => change (preserves (keeps D) c)
  end.
  unfold reloaded_fields.
  repeat (cbv beta; lazymatch goal with
    | |- preserves _ (unless_has "x_poly_fwd" _ ≫= _) =>
        apply preserves_bind;
          [typeclasses eauto | unfold unless_has, array_from; repeat keeps_step | intros ?]
    | |- preserves _ (getattr "distortion_type" ≫= _) =>
        apply preserves_bind2; [typeclasses eauto | keeps_step | intros ?]
    | |- preserves _ (unless_has _ _ ≫= _) =>
        apply preserves_bind; [typeclasses eauto | keeps_step | intros ?]
    end).
  unfold array_from. repeat keeps_step.
Qed.



Lemma bind_assoc {A B C} (c : M A) (f : A -> M B) (g : B -> M C) (st : pstate) :
  (c ≫= fun a => f a ≫= g) st = ((c ≫= f) ≫= g) st.
Proof.
  unfold mbind, M_bind. destruct (c st) as [s1 [a | e]]; reflexivity.
Qed.

Ltac py_lookup_in H :=
  repeat first
    [ rewrite lookup_insert_eq in H
    | rewrite lookup_insert_ne in H by (discriminate || lia)
    | rewrite lookup_delete_eq in H
    | rewrite lookup_delete_ne in H by (discriminate || lia)
    | rewrite lookup_empty in H ].







(** ** A new object *)

Lemma bind_setattr {B} (name : string) (v : value) (k : unit -> M B)
    (a : gmap string value) (h : gmap nat ndarray) (n : nat) (o : list string) :
  (setattr name v ≫= k) (mkState a h n o) = k tt (mkState (<[name := v]> a) h n o).
Proof. reflexivity. Qed.

Lemma init_vignetting (name : string) (st : pstate) :
  name ∈ distortion_type_list ->
  exists st', init (VStr name) st = (st', Ok tt) /\
    attrs st' !! "vignetting_coeff" = Some (VFloat F64.zero) /\
    attrs st' !! "X_res" = Some (VInt 0) /\
    attrs st' !! "distortion_type" = Some (VStr name).
Proof.
  intros Hin. destruct st as [a h n o]. unfold init.
  change ((new_object ≫= ?k) (mkState a h n o)) with (k tt (mkState ∅ h n o)). cbv beta.
  rewrite !bind_setattr.
  change ((getattr "distortion_type" ≫= ?k) ?s)
    with (match getattr "distortion_type" s with
          | (s', Ok v) => k v s'
          | (s', Raise e) => (s', Raise e)
          end).
  unfold getattr at 1. cbn [attrs]. py_lookup. cbv beta iota.
  change ((setDistortionType (VStr name) true ≫= ?k) ?s)
    with (match setDistortionType (VStr name) true s with
          | (s', Ok v) => k v s'
          | (s', Raise e) => (s', Raise e)
          end).
  rewrite setDistortionType_known by done. rewrite resetDistortionParameters_run.
  cbn [attrs heap next_loc stdout with_type_list]. cbv beta iota zeta.
  unfold assign_all, foldr.
  repeat (first [ rewrite bind_setattr
                | match goal with
                  | |- context [((setattr ?k1 ?v1 ≫= ?f) ≫= ?g) ?s] =>
                      rewrite <- (bind_assoc (setattr k1 v1) f g s)
                  | |- context [(mret tt ≫= ?f) ?s] => change ((mret tt ≫= f) s) with (f tt s)
                  end ]; cbv beta).
  rewrite resetDistortionParameters_run. cbn [attrs heap next_loc stdout]. cbv zeta.
  eexists. split; [reflexivity |]. cbn [attrs]. py_lookup. done.
Qed.


Lemma C4_version_1_document_witness :
  exists st',
    loadFromDict (H := trivial_externals) v1_document None empty_state = (st', Ok tt) /\
    attrs st' !! "version" = Some (VInt 1) /\
    field_array st' "y_poly_rev" = Some (ArrI64 (replicate 12 0%Z)).
Proof.
  unshelve epose proof
    (C4_version_1_document (H := trivial_externals) v1_document None empty_state
       (VFloat <$> F64.half :: replicate 11 F64.zero) (VInt <$> replicate 12 0%Z)
       reset_vector (ArrI64 (replicate 12 0%Z)) (VInt 1280) (VInt 720)
       (F64.of_Z 1280) (F64.of_Z 720) _ _ _ _ _ _ _ _ _) as Hw;
    [vm_compute; reflexivity .. |].
  destruct Hw as (st' & Hrun & Hversion & _ & _ & _ & _ & _ & _ & _ & Hyr & _).
  exists st'. repeat split; assumption.
Defined.

(** ** Reading a file *)

Lemma bind_returns {A B} (c : M A) (k : A -> M B) (st s : pstate) (a : A) :
  c st = (s, Ok a) -> (c ≫= k) st = k a s.
Proof. intros Hc. unfold mbind, M_bind. by rewrite Hc. Qed.

Lemma read_json `{Externals} (doc : gmap string json) (fmt : option string) use_flat :
  fmt = None \/ fmt = Some "json" ->
  read (Some (JsonObject doc)) fmt use_flat =
  (loadFromDict (json_loads doc) use_flat;; addVignettingCoeff use_flat;; mret (VStr "json")).
Proof. intros [-> | ->]; reflexivity. Qed.

(** C9, as stated, fails: a document that has the vignetting field, with
    the value [null], is loaded with the coefficient [None], and the call
    at the end of [read] gives it the resolution-scaled default. *)
Lemma C9_counterexample :
  exists st1 st',
    is_Some (null_vignetting_document !! "vignetting_coeff") /\
    loadFromDict (H := trivial_externals) (json_loads null_vignetting_document) None
      new_platepar = (st1, Ok tt) /\
    attrs st1 !! "vignetting_coeff" = Some VNone /\
    read (H := trivial_externals) (Some (JsonObject null_vignetting_document)) None None
      new_platepar = (st', Ok (VStr "json")) /\
    attrs st' !! "vignetting_coeff" =
      Some (VFloat (vignetting_default (H := trivial_externals)
                      (F64.of_Z 1280) (F64.of_Z 720))).
Proof.
  exists (loadFromDict (H := trivial_externals) (json_loads null_vignetting_document) None
            new_platepar).1,
         (read (H := trivial_externals) (Some (JsonObject null_vignetting_document)) None None
            new_platepar).1.
  split; [unfold null_vignetting_document; rewrite lookup_insert_eq; eauto |].
  split; [vm_compute; reflexivity |]. split; [vm_compute; reflexivity |].
  split; vm_compute; reflexivity.
Qed.

(** ** Success of a reload *)




Lemma unless_has_absent (name : string) (c : M unit) (st : pstate) :
  attrs st !! name = None -> unless_has name c st = c st.
Proof.
  intros Hs. unfold unless_has, hasattr, mbind, M_bind.
  rewrite bool_decide_eq_false_2; [reflexivity |]. rewrite Hs. by intros [? ?].
Qed.











(** ** The vignetting coefficient of a loaded object *)

Ltac peel_adds H s Hc K :=
  apply bind_ok_inv in H as (? & s & Hc & H);
  match type of Hc with
  | ?c ?s0 = _ =>
      assert (K : adds_only early_defaulted_fields s0 s)
        by (let P := fresh in
            assert (P : preserves (adds_only early_defaulted_fields) c)
              by first [ apply adds_only_default_type; unfold early_defaulted_fields; list_mem
                       | unfold unless_has, setDistortionType, early_defaulted_fields;
                         repeat adds_step ];
            specialize (P s0); rewrite Hc in P; exact P)
  end.

Lemma addVignettingCoeff_none `{Externals} use_flat (st st' : pstate) :
  attrs st !! "vignetting_coeff" = Some VNone ->
  addVignettingCoeff use_flat st = (st', Ok tt) ->
  exists x, attrs st' !! "vignetting_coeff" = Some (VFloat x).
Proof.
  intros Hc. unfold addVignettingCoeff. py_unfold. rewrite Hc.
  destruct (truth use_flat); [intros [= <-]; cbn; py_lookup; eauto |].
  destruct (attrs st !! "X_res") as [xr |]; [| discriminate].
  destruct (attrs st !! "Y_res") as [yr |]; [| discriminate].
  destruct (as_f64 xr); [| discriminate]. destruct (as_f64 yr); [| discriminate].
  intros [= <-]. cbn. py_lookup. eauto.
Qed.

Lemma loadFromDict_default_vignetting `{Externals} doc use_flat (st st' : pstate) :
  doc !! "vignetting_coeff" = None ->
  loadFromDict doc use_flat st = (st', Ok tt) ->
  exists x, attrs st' !! "vignetting_coeff" = Some (VFloat x).
Proof.
  intros Hdoc Hload. unfold loadFromDict in Hload.
  apply bind_ok_inv in Hload as ([] & s0 & Hs0 & Hload).
  unfold set_dict in Hs0. injection Hs0 as <-.
  peel_adds Hload t0 Hc K.
  peel_adds Hload s1 Hc0 K0.
  rewrite bind_assoc in Hload.
  peel_adds Hload s2 Hc1 K1.
  peel_adds Hload s3 Hc2 K2.
  peel_adds Hload s4 Hc3 K3.
  assert (Kpre : adds_only early_defaulted_fields
                   (mkState doc (heap st) (next_loc st) (stdout st)) s4).
  { etrans; [exact K |]. etrans; [exact K0 |]. etrans; [exact K1 |].
    etrans; [exact K2 | exact K3]. }
  assert (Habsent : attrs s4 !! "vignetting_coeff" = None).
  { destruct (attrs s4 !! "vignetting_coeff") as [c |] eqn:Hc4; [exfalso | done].
    destruct (proj2 (Kpre "vignetting_coeff")) as [[w Hw] | Hin]; [rewrite Hc4; eauto | |].
    - cbn in Hw. congruence.
    - assert (Hno : "vignetting_coeff" ∉ early_defaulted_fields)
        by (unfold early_defaulted_fields; not_in_list).
      done. }
  clear - Hload Habsent.
  apply bind_ok_inv in Hload as ([] & s5 & Hvig & Hload).
  rewrite unless_has_absent in Hvig by done.
  apply bind_ok_inv in Hvig as ([] & s4' & Hset & Hvig).
  unfold setattr in Hset. injection Hset as <-.
  apply addVignettingCoeff_none in Hvig as [x Hx]; [| cbn; by py_lookup].
  exists x.
  assert (Hrest : forall c : M unit,
            preserves (keeps reloaded_fields) c -> c s5 = (st', Ok tt) ->
            attrs st' !! "vignetting_coeff" = Some (VFloat x)).
  { intros c Hc Hrun. specialize (Hc s5). rewrite Hrun in Hc. cbn in Hc.
    rewrite (Hc "vignetting_coeff"); [exact Hx | | rewrite Hx; eauto].
    unfold reloaded_fields. not_in_list. }
  eapply Hrest; [| exact Hload].
  unfold reloaded_fields.
  repeat (cbv beta; lazymatch goal with
    | |- preserves _ (unless_has "x_poly_fwd" _ ≫= _) =>
        apply preserves_bind;
          [typeclasses eauto | unfold unless_has, array_from; repeat keeps_step | intros ?]
    | |- preserves _ (unless_has _ _ ≫= _) =>
        apply preserves_bind; [typeclasses eauto | keeps_step | intros ?]
    end).
  unfold array_from. repeat keeps_step.
Qed.

Lemma decode_none (j : json) : decode j = VNone -> j = JNull.
Proof. destruct j; try discriminate. reflexivity. Qed.

(** C9, amended: for each of the four family names a new [Platepar] has
    the vignetting coefficient 0.0, so [addVignettingCoeff] leaves it as
    it is whatever the flag.  A call changes an object only when its
    coefficient is [None].  [loadFromDict] keeps the coefficient of a
    dictionary that has one, [None] included, and gives a float to a
    dictionary that has none; so the call at the end of [read] changes the
    object only for a document that holds [null] for the coefficient, and
    a coefficient of the document that is not [null] is the coefficient
    after [read]. *)
Theorem C9_new_platepar `{Externals} (name : string) (st : pstate) :
  name ∈ distortion_type_list ->
  (exists st', init (VStr name) st = (st', Ok tt) /\
     attrs st' !! "vignetting_coeff" = Some (VFloat F64.zero) /\
     forall use_flat, addVignettingCoeff use_flat st' = (st', Ok tt)) /\
  (forall use_flat s s', addVignettingCoeff use_flat s = (s', Ok tt) -> s' <> s ->
     attrs s !! "vignetting_coeff" = Some VNone) /\
  (forall doc use_flat s0 s' c, doc !! "vignetting_coeff" = Some c ->
     loadFromDict doc use_flat s0 = (s', Ok tt) ->
     attrs s' !! "vignetting_coeff" = Some c) /\
  (forall doc use_flat s0 s',
     doc !! "vignetting_coeff" = None ->
     loadFromDict doc use_flat s0 = (s', Ok tt) ->
     exists x, attrs s' !! "vignetting_coeff" = Some (VFloat x)) /\
  (forall doc fmt use_flat s0 s1 s',
     fmt = None \/ fmt = Some "json" ->
     loadFromDict (json_loads doc) use_flat s0 = (s1, Ok tt) ->
     read (Some (JsonObject doc)) fmt use_flat s0 = (s', Ok (VStr "json")) ->
     addVignettingCoeff use_flat s1 = (s', Ok tt) /\
     (s' <> s1 -> doc !! "vignetting_coeff" = Some JNull) /\
     (forall j, doc !! "vignetting_coeff" = Some j -> j <> JNull ->
        attrs s' !! "vignetting_coeff" = Some (decode j))).
Proof.
  intros Hin.
  assert (Hchange : forall use_flat s s',
            addVignettingCoeff use_flat s = (s', Ok tt) -> s' <> s ->
            attrs s !! "vignetting_coeff" = Some VNone).
  { intros use_flat s s' Hrun Hne.
    destruct (attrs s !! "vignetting_coeff") as [c |] eqn:Hc.
    + assert (Hdec : c = VNone \/ c <> VNone) by (destruct c; (by left) || (by right)).
      destruct Hdec as [-> | Hn]; [done |].
      rewrite (addVignettingCoeff_set use_flat s c Hc Hn) in Hrun.
      injection Hrun as <-. done.
    + revert Hrun. unfold addVignettingCoeff. py_unfold. rewrite Hc. discriminate. }
  assert (Hkept : forall doc use_flat s0 s' c, doc !! "vignetting_coeff" = Some c ->
            loadFromDict doc use_flat s0 = (s', Ok tt) ->
            attrs s' !! "vignetting_coeff" = Some c).
  { intros doc use_flat s0 s' c Hc Hrun.
    pose proof (loadFromDict_keeps doc use_flat s0) as Hkeeps.
    rewrite Hrun in Hkeeps. cbn in Hkeeps.
    rewrite (Hkeeps "vignetting_coeff"); [exact Hc | | cbn; rewrite Hc; eauto].
    unfold reloaded_fields. not_in_list. }
  split; [| split; [exact Hchange | split; [exact Hkept | split]]].
  - destruct (init_vignetting name st Hin) as (st' & Hrun & Hv & _).
    exists st'. split; [done |]. split; [done |].
    intros use_flat. by apply (addVignettingCoeff_set use_flat st' (VFloat F64.zero)).
  - intros doc use_flat s0 s'. apply loadFromDict_default_vignetting.
  - intros doc fmt use_flat s0 s1 s' Hfmt Hload Hread.
    rewrite read_json in Hread by done.
    rewrite (bind_returns _ _ _ _ _ Hload) in Hread.
    apply bind_ok_inv in Hread as ([] & s2 & Hadd & Hret).
    cbn in Hret. injection Hret as <-.
    split; [exact Hadd |]. split.
    + intros Hne. pose proof (Hchange use_flat s1 s2 Hadd Hne) as Hnone.
      destruct (doc !! "vignetting_coeff") as [j |] eqn:Hj.
      * assert (Hd : json_loads doc !! "vignetting_coeff" = Some (decode j))
          by (unfold json_loads; by rewrite lookup_fmap, Hj).
        rewrite (Hkept _ _ _ _ _ Hd Hload) in Hnone. injection Hnone as Hnone.
        by rewrite (decode_none j Hnone).
      * assert (Hd : json_loads doc !! "vignetting_coeff" = None)
          by (unfold json_loads; by rewrite lookup_fmap, Hj).
        destruct (loadFromDict_default_vignetting _ _ _ _ Hd Hload) as [x Hx].
        congruence.
    + intros j Hj Hnn.
      assert (Hd : json_loads doc !! "vignetting_coeff" = Some (decode j))
        by (unfold json_loads; by rewrite lookup_fmap, Hj).
      pose proof (Hkept _ _ _ _ _ Hd Hload) as Hs1.
      assert (Hnone : decode j <> VNone) by (intros Hd'; by apply Hnn, decode_none).
      rewrite (addVignettingCoeff_set use_flat s1 (decode j) Hs1 Hnone) in Hadd.
      by injection Hadd as <-.
Qed.

Lemma C9_new_platepar_witness :
  exists st', init (VStr "radial7") empty_state = (st', Ok tt) /\
    attrs st' !! "vignetting_coeff" = Some (VFloat F64.zero) /\
    addVignettingCoeff (H := trivial_externals) (Some false) st' = (st', Ok tt).
Proof.
  assert (Hin : "radial7" ∈ distortion_type_list) by (unfold distortion_type_list; list_mem).
  destruct (C9_new_platepar (H := trivial_externals) "radial7" empty_state Hin)
    as ((st' & Hrun & Hv & Hnoop) & _).
  exists st'. split; [exact Hrun |]. split; [exact Hv | apply Hnoop].
Defined.

(** ** Binary64 division *)

Lemma digits2_pos_size (p : positive) : digits2_pos p = Pos.size p.
Proof. induction p as [p IH | p IH |]; cbn; congruence. Qed.

Lemma Zdigits2_log2 (p : positive) : Zpos (digits2_pos p) = Z.log2 (Zpos p) + 1.
Proof.
  rewrite digits2_pos_size. destruct p as [p | p |]; cbn [Pos.size Z.log2];
    rewrite ?Pos2Z.inj_succ; lia.
Qed.

Lemma digits2_pos_bounds (p : positive) (n : Z) :
  0 <= n -> 2 ^ n <= Zpos p < 2 ^ (n + 1) -> Zpos (digits2_pos p) = n + 1.
Proof.
  intros Hn Hp. rewrite Zdigits2_log2. f_equal. by apply Z.log2_unique.
Qed.

Lemma fexp_53 (e : Z) : -1074 <= e -> fexp 53 1024 (53 + e) = e.
Proof. intros He. unfold fexp, emin. lia. Qed.

Lemma fexp_54 (e : Z) : -1075 <= e -> fexp 53 1024 (54 + e) = e + 1.
Proof. intros He. unfold fexp, emin. lia. Qed.

Lemma shr_m_of_loc (m : Z) (l : location) : shr_m (shr_record_of_loc m l) = m.
Proof. by destruct l as [| []]. Qed.

Lemma loc_of_shr_of_loc (m : Z) (l : location) :
  loc_of_shr_record (shr_record_of_loc m l) = l.
Proof. by destruct l as [| []]. Qed.

(** The location of [r / d] with respect to 0, 1/2 and 1. *)
Lemma new_location_spec (d r : Z) :
  0 < d -> 0 <= r < d ->
  match new_location d r with
  | loc_Exact => r = 0
  | loc_Inexact Lt => 0 < r /\ 2 * r < d
  | loc_Inexact Eq => 2 * r = d
  | loc_Inexact Gt => d < 2 * r
  end.
Proof.
  intros Hd Hr. unfold new_location, new_location_even, new_location_odd.
  destruct (Z.even d) eqn:Hev.
  - destruct (Z.eqb_spec r 0) as [-> | Hne]; [done |].
    destruct (Z.compare_spec (2 * r) d); lia.
  - destruct (Z.eqb_spec r 0) as [-> | Hne]; [done |].
    assert (Hodd : Z.odd d = true) by (by rewrite <- Z.negb_even, Hev).
    apply Z.odd_spec in Hodd as [k Hk].
    destruct (Z.compare_spec (2 * r + 1) d); lia.
Qed.

(** Rounding to nearest of [m + r/d]: the result is within 1/2. *)
Lemma round_nearest_even_spec (m d r : Z) :
  0 < d -> 0 <= r < d ->
  let m1 := round_nearest_even m (new_location d r) in
  (m1 = m \/ m1 = m + 1) /\ - d <= 2 * (m1 * d - (m * d + r)) <= d.
Proof.
  intros Hd Hr. pose proof (new_location_spec d r Hd Hr) as Hloc.
  cbv zeta. unfold round_nearest_even.
  destruct (new_location d r) as [| []].
  - split; [by left | lia].
  - destruct (Z.even m); (split; [auto | lia]).
  - split; [by left | lia].
  - split; [by right | lia].
Qed.

Lemma shr_fexp_53 (p : positive) (e : Z) (l : location) :
  2 ^ 52 <= Zpos p < 2 ^ 53 -> -1074 <= e ->
  shr_fexp 53 1024 (Zpos p) e l = (shr_record_of_loc (Zpos p) l, e).
Proof.
  intros Hp He. unfold shr_fexp. cbn [Zdigits2].
  rewrite (digits2_pos_bounds p 52) by (change (52 + 1) with 53; lia).
  change (52 + 1) with 53. rewrite fexp_53 by done. by rewrite Z.sub_diag.
Qed.

Lemma shr_fexp_54 (p : positive) (e : Z) (l : location) :
  2 ^ 53 <= Zpos p < 2 ^ 54 -> -1075 <= e ->
  shr_fexp 53 1024 (Zpos p) e l = (shr_1 (shr_record_of_loc (Zpos p) l), e + 1).
Proof.
  intros Hp He. unfold shr_fexp. cbn [Zdigits2].
  rewrite (digits2_pos_bounds p 53) by (change (53 + 1) with 54; lia).
  change (53 + 1) with 54. rewrite fexp_54 by done.
  replace (e + 1 - e) with 1 by lia. reflexivity.
Qed.

(** The first rounding of a quotient [q + r/d] of 53 or 54 digits. *)
Lemma round_first (q d r e : Z) :
  0 < d -> 0 <= r < d -> 2 ^ 52 <= q < 2 ^ 54 -> -1074 <= e ->
  exists mrs e1,
    shr_fexp 53 1024 q e (new_location d r) = (mrs, e1) /\
    let m1 := round_nearest_even (shr_m mrs) (loc_of_shr_record mrs) in
    2 ^ 52 <= m1 <= 2 ^ 53 /\ e <= e1 <= e + 1 /\
    - (q * d + r) <= 2 ^ 53 * (m1 * 2 ^ (e1 - e) * d - (q * d + r)) <= q * d + r.
Proof.
  intros Hd Hr Hq He.
  destruct q as [| p | p]; [lia | | lia].
  destruct (Z.lt_ge_cases (Zpos p) (2 ^ 53)) as [Hlt | Hge].
  - eexists _, _. split; [apply shr_fexp_53; [lia | done] |].
    rewrite shr_m_of_loc, loc_of_shr_of_loc. cbv zeta.
    assert (Hprod : 2 ^ 52 * d <= Zpos p * d) by (apply Z.mul_le_mono_nonneg_r; lia).
    destruct (round_nearest_even_spec (Zpos p) d r Hd Hr) as [Hm1 Herr].
    cbv zeta in Hm1, Herr.
    set (m1 := round_nearest_even (Zpos p) (new_location d r)) in *. clearbody m1.
    rewrite Z.sub_diag. change (2 ^ 0) with 1. rewrite Z.mul_1_r.
    destruct Hm1 as [-> | ->]; (split; [lia |]); (split; [lia |]); lia.
  - eexists _, _. split; [apply shr_fexp_54; [lia | lia] |].
    pose proof (new_location_spec d r Hd Hr) as Hloc.
    replace (e + 1 - e) with 1 by lia. change (2 ^ 1) with 2. cbv zeta.
    assert (Hprod : forall h, 2 ^ 52 <= h -> 2 ^ 52 * d <= h * d)
      by (intros h Hh; apply Z.mul_le_mono_nonneg_r; lia).
    destruct p as [h | h |]; [| | lia].
    + specialize (Hprod (Zpos h) ltac:(lia)).
      destruct (new_location d r) as [| []]; cbn [shr_record_of_loc shr_1 orb shr_m
        loc_of_shr_record round_nearest_even];
        try (destruct (Z.even (Zpos h)));
        rewrite Pos2Z.inj_xI in *; (split; [lia |]); (split; [lia |]); lia.
    + specialize (Hprod (Zpos h) ltac:(lia)).
      destruct (new_location d r) as [| []]; cbn [shr_record_of_loc shr_1 orb shr_m
        loc_of_shr_record round_nearest_even];
        rewrite Pos2Z.inj_xO in *; (split; [lia |]); (split; [lia |]); lia.
Qed.

(** The second pass of [binary_round_aux], when the rounded mantissa has
    53 digits or is [2 ^ 53]. *)
Lemma round_finish (m1 e1 : Z) :
  2 ^ 52 <= m1 <= 2 ^ 53 -> -1074 <= e1 ->
  exists mrs e2 mz,
    shr_fexp 53 1024 m1 e1 loc_Exact = (mrs, e2) /\
    shr_m mrs = Zpos mz /\
    Zpos mz * 2 ^ (e2 - e1) = m1 /\
    2 ^ 52 <= Zpos mz < 2 ^ 53 /\ e1 <= e2 <= e1 + 1.
Proof.
  intros Hm He.
  destruct m1 as [| p | p]; [lia | | lia].
  destruct (Z.lt_ge_cases (Zpos p) (2 ^ 53)) as [Hlt | Hge].
  - exists (shr_record_of_loc (Zpos p) loc_Exact), e1, p.
    split; [apply shr_fexp_53; [lia | done] |]. cbn [shr_record_of_loc shr_m].
    rewrite Z.sub_diag. change (2 ^ 0) with 1. lia.
  - assert (Hp : Zpos p = 2 ^ 53) by lia. injection Hp as ->.
    eexists _, _, _. split; [apply shr_fexp_54; [lia | lia] |].
    cbn [shr_record_of_loc shr_1 orb shr_m].
    split; [reflexivity |]. replace (e1 + 1 - e1) with 1 by lia.
    split; [reflexivity |]. lia.
Qed.

(** Division of two positive normal numbers whose quotient is in the
    normal range: the result is a normal number within a relative error
    of [2 ^ -53] of the quotient, stated on the mantissas. *)
Lemma SFdiv_normal (mx my : positive) (ex ey : Z) :
  2 ^ 52 <= Zpos mx < 2 ^ 53 -> 2 ^ 52 <= Zpos my < 2 ^ 53 ->
  -1074 <= ex - ey - 53 -> ex - ey - 53 <= 969 ->
  exists mz ez,
    SFdiv 53 1024 (S754_finite false mx ex) (S754_finite false my ey)
      = S754_finite false mz ez /\
    2 ^ 52 <= Zpos mz < 2 ^ 53 /\
    ex - ey - 53 <= ez <= ex - ey - 51 /\
    - (Zpos mx * 2 ^ 53)
      <= 2 ^ 53 * (Zpos mz * 2 ^ (ez - (ex - ey - 53)) * Zpos my - Zpos mx * 2 ^ 53)
      <= Zpos mx * 2 ^ 53.
Proof.
  intros Hmx Hmy Hlo Hhi. set (e := ex - ey - 53) in *.
  unfold SFdiv, SFdiv_core_binary. cbn [xorb Zdigits2].
  rewrite (digits2_pos_bounds mx 52), (digits2_pos_bounds my 52)
    by (change (52 + 1) with 53; lia).
  change (52 + 1) with 53.
  replace (Z.min (fexp 53 1024 (53 + ex - (53 + ey))) (ex - ey)) with e
    by (unfold fexp, emin; lia).
  replace (ex - ey - e) with 53 by lia.
  rewrite Z.shiftl_mul_pow2 by lia.
  pose proof (Z_div_mod (Zpos mx * 2 ^ 53) (Zpos my) ltac:(lia)) as Hdiv.
  destruct (Z.div_eucl (Zpos mx * 2 ^ 53) (Zpos my)) as [q r].
  destruct Hdiv as [Hqr Hr].
  assert (Hq : 2 ^ 52 <= q < 2 ^ 54).
  { assert (H1 : Zpos my * q <= Zpos mx * 2 ^ 53) by lia.
    assert (H2 : Zpos mx * 2 ^ 53 < Zpos my * (q + 1)) by lia.
    split.
    - apply Z.lt_succ_r. apply (Z.mul_lt_mono_pos_l (Zpos my)); [lia |].
      assert (Zpos my * 2 ^ 52 < 2 ^ 53 * 2 ^ 52) by (apply Z.mul_lt_mono_pos_r; lia).
      assert (2 ^ 52 * 2 ^ 53 <= Zpos mx * 2 ^ 53) by (apply Z.mul_le_mono_nonneg_r; lia).
      lia.
    - apply (Z.mul_lt_mono_pos_l (Zpos my)); [lia |].
      assert (Zpos mx * 2 ^ 53 < 2 ^ 53 * 2 ^ 53) by (apply Z.mul_lt_mono_pos_r; lia).
      assert (2 ^ 52 * 2 ^ 54 <= Zpos my * 2 ^ 54) by (apply Z.mul_le_mono_nonneg_r; lia).
      lia. }
  unfold binary_round_aux.
  destruct (round_first q (Zpos my) r e ltac:(lia) Hr Hq Hlo)
    as (mrs & e1 & -> & Hm1 & He1 & Herr).
  cbv zeta in Hm1, Herr.
  set (m1 := round_nearest_even (shr_m mrs) (loc_of_shr_record mrs)) in *. clearbody m1.
  destruct (round_finish m1 e1 Hm1 ltac:(lia)) as (mrs2 & e2 & mz & -> & -> & Hmz & Hz & He2).
  exists mz, e2.
  replace (e2 <=? 1024 - 53) with true by (symmetry; apply Z.leb_le; lia).
  split; [reflexivity |]. split; [done |]. split; [lia |].
  replace (Zpos mz * 2 ^ (e2 - e)) with (m1 * 2 ^ (e1 - e)).
  - rewrite Hqr. replace (Zpos my * q) with (q * Zpos my) by ring. exact Herr.
  - rewrite <- Hmz. replace (e2 - e) with ((e2 - e1) + (e1 - e)) by lia.
    rewrite Z.pow_add_r by lia. ring.
Qed.

(** ** The image scale of the CMN text format *)

Section ScaleRoundtrip.
Local Open Scope R_scope.

Lemma powerRZ_pos (e : Z) : 0 < powerRZ 2 e.
Proof. apply powerRZ_lt. lra. Qed.

Lemma IZR_pow2 (k : Z) : (0 <= k)%Z -> IZR (2 ^ k) = powerRZ 2 k.
Proof.
  intros Hk. rewrite <- (Z2Nat.id k Hk). rewrite <- pow_IZR, <- pow_powerRZ. reflexivity.
Qed.

Lemma powerRZ_ge_1 (k : Z) : (0 <= k)%Z -> 1 <= powerRZ 2 k.
Proof.
  intros Hk. rewrite <- (Z2Nat.id k Hk), <- pow_powerRZ. apply pow_R1_Rle. lra.
Qed.

Lemma powerRZ_le_mono (n m : Z) : (n <= m)%Z -> powerRZ 2 n <= powerRZ 2 m.
Proof.
  intros Hnm. replace m with (n + (m - n))%Z by lia.
  rewrite powerRZ_add by lra.
  pose proof (powerRZ_pos n). pose proof (powerRZ_ge_1 (m - n) ltac:(lia)). nra.
Qed.

Lemma Rabs_le_between (a b : R) : Rabs a <= b -> - b <= a <= b.
Proof.
  intros Hab. pose proof (Rle_abs a). pose proof (Rle_abs (- a)) as Hn.
  rewrite Rabs_Ropp in Hn. lra.
Qed.

(** Two divisions of relative error [u] each: the composite is within
    [4 u]. *)
Lemma roundtrip_error (C S A R' u : R) :
  0 < C -> 0 < S -> 0 < u <= 1 / 4 ->
  Rabs (A - C / S) <= C / S * u ->
  Rabs (R' - C / A) <= C / A * u ->
  0 < A /\ 0 < R' /\ Rabs (R' - S) <= S * (4 * u).
Proof.
  intros HC HS Hu HA HR.
  set (w := C / S) in *.
  assert (Hw : 0 < w) by (unfold w; apply Rdiv_lt_0_compat; lra).
  assert (HSw : S * w = C) by (unfold w; field; lra).
  apply Rabs_le_between in HA.
  assert (HApos : 0 < A) by nra.
  set (t := C / A) in *.
  assert (Ht : 0 < t) by (unfold t; apply Rdiv_lt_0_compat; lra).
  assert (HAt : A * t = C) by (unfold t; field; lra).
  apply Rabs_le_between in HR.
  assert (Ht1 : t * (1 - u) <= S).
  { apply (Rmult_le_reg_r w); [done |]. nra. }
  assert (Ht2 : S <= t * (1 + u)).
  { apply (Rmult_le_reg_r w); [done |]. nra. }
  split; [done |]. split; [nra |].
  apply Rabs_le. split.
  - assert (S * (1 - u) <= R' * (1 + u)) by nra. nra.
  - assert (R' * (1 - u) <= S * (1 + u)) by nra. nra.
Qed.

Lemma SFdiv_normal_R (mx my : positive) (ex ey : Z) :
  (2 ^ 52 <= Zpos mx < 2 ^ 53)%Z -> (2 ^ 52 <= Zpos my < 2 ^ 53)%Z ->
  (-1074 <= ex - ey - 53)%Z -> (ex - ey - 53 <= 969)%Z ->
  exists mz ez,
    SFdiv 53 1024 (S754_finite false mx ex) (S754_finite false my ey)
      = S754_finite false mz ez /\
    (2 ^ 52 <= Zpos mz < 2 ^ 53)%Z /\
    (ex - ey - 53 <= ez <= ex - ey - 51)%Z /\
    Rabs (F64.to_R (S754_finite false mz ez)
          - F64.to_R (S754_finite false mx ex) / F64.to_R (S754_finite false my ey))
      <= F64.to_R (S754_finite false mx ex) / F64.to_R (S754_finite false my ey) * powerRZ 2 (-53).
Proof.
  intros Hmx Hmy Hlo Hhi.
  destruct (SFdiv_normal mx my ex ey Hmx Hmy Hlo Hhi) as (mz & ez & Heq & Hmz & Hez & Hl & Hr).
  exists mz, ez. split; [exact Heq |]. split; [exact Hmz |]. split; [exact Hez |].
  apply IZR_le in Hl, Hr.
  repeat (first [rewrite opp_IZR in Hl | rewrite mult_IZR in Hl | rewrite minus_IZR in Hl]).
  repeat (first [rewrite opp_IZR in Hr | rewrite mult_IZR in Hr | rewrite minus_IZR in Hr]).
  rewrite !IZR_pow2 in Hl, Hr by lia.
  unfold F64.to_R.
  set (e := (ex - ey - 53)%Z) in *.
  replace ez with ((ez - e) + e)%Z at 1 by lia.
  replace ex with (53 + (e + ey))%Z at 1 2 by lia.
  rewrite !powerRZ_add by lra.
  change (powerRZ 2 (-53)) with (powerRZ 2 (- (53))). rewrite powerRZ_neg'.
  set (X := IZR (Zpos mx)) in *. set (Y := IZR (Zpos my)) in *.
  set (Zr := IZR (Zpos mz)) in *.
  set (P53 := powerRZ 2 53) in *. set (Pk := powerRZ 2 (ez - e)) in *.
  set (Pe := powerRZ 2 e). set (Pey := powerRZ 2 ey).
  assert (HP53 : 0 < P53) by apply powerRZ_pos.
  assert (HPe : 0 < Pe) by apply powerRZ_pos.
  assert (HPey : 0 < Pey) by apply powerRZ_pos.
  assert (HY : 0 < Y) by (apply IZR_lt; lia).
  assert (HX : 0 < X) by (apply IZR_lt; lia).
  assert (Hc : 0 < Pe / Y) by (apply Rdiv_lt_0_compat; lra).
  replace (1 * Zr * (Pk * Pe) - 1 * X * (P53 * (Pe * Pey)) / (1 * Y * Pey))
    with ((Zr * Pk * Y - X * P53) * (Pe / Y)) by (field; lra).
  replace (1 * X * (P53 * (Pe * Pey)) / (1 * Y * Pey) * / P53)
    with (X * (Pe / Y)) by (field; lra).
  assert (HD : - X <= Zr * Pk * Y - X * P53 <= X). { nra. }
  apply Rabs_le. nra.
Qed.


Lemma finite_bounds (m : positive) :
  (2 ^ (Zpos (digits2_pos m) - 1) <= Zpos m < 2 ^ Zpos (digits2_pos m))%Z.
Proof.
  rewrite Zdigits2_log2. replace (Z.log2 (Zpos m) + 1 - 1)%Z with (Z.log2 (Zpos m)) by lia.
  change (Z.log2 (Zpos m) + 1)%Z with (Z.succ (Z.log2 (Zpos m))).
  apply Z.log2_spec. lia.
Qed.

(** The valid numbers between [2 ^ -1011] and [2 ^ 1022] are the positive
    normal numbers with an exponent from -1063 to 969. *)
Lemma normal_of_range (s : f64) :
  valid_binary F64.prec F64.emax s = true ->
  powerRZ 2 (-1011) <= F64.to_R s < powerRZ 2 1022 ->
  exists m e, s = S754_finite false m e /\
    (2 ^ 52 <= Zpos m < 2 ^ 53)%Z /\ (-1063 <= e <= 969)%Z.
Proof.
  intros Hvalid [Hlo Hhi]. pose proof (powerRZ_pos (-1011)) as Hpos.
  destruct s as [sg | sg | | sg m e]; cbn [F64.to_R] in Hlo, Hhi; try lra.
  pose proof (powerRZ_pos e) as Hpe.
  assert (Hm : 0 < IZR (Zpos m)) by (apply IZR_lt; lia).
  destruct sg; [nra |]. exists m, e. split; [reflexivity |].
  rewrite Rmult_1_l in Hlo, Hhi.
  unfold valid_binary, bounded, canonical_mantissa, F64.prec, F64.emax in Hvalid.
  apply andb_prop in Hvalid as [Hcanon _]. apply Z.eqb_eq in Hcanon.
  unfold fexp, emin in Hcanon.
  pose proof (finite_bounds m) as Hdigits.
  set (d := Zpos (digits2_pos m)) in *.
  assert (Hd : (1 <= d <= 53)%Z) by lia.
  assert (Hlt53 : (Zpos m < 2 ^ 53)%Z).
  { eapply Z.lt_le_trans; [apply Hdigits |]. apply Z.pow_le_mono_r; lia. }
  assert (He1 : (-1063 <= e)%Z).
  { destruct (Z.le_gt_cases (-1063) e) as [? | Hsmall]; [done | exfalso].
    assert (IZR (Zpos m) < powerRZ 2 53) by (rewrite <- IZR_pow2 by lia; by apply IZR_lt).
    assert (powerRZ 2 53 * powerRZ 2 e <= powerRZ 2 (-1011)).
    { rewrite <- powerRZ_add by lra. apply powerRZ_le_mono. lia. }
    nra. }
  assert (Hd53 : d = 53%Z) by lia. rewrite Hd53 in Hdigits.
  change (53 - 1)%Z with 52%Z in Hdigits.
  split; [exact Hdigits |]. split; [exact He1 |].
  destruct (Z.le_gt_cases e 969) as [? | Hbig]; [done | exfalso].
  assert (powerRZ 2 52 <= IZR (Zpos m)) by (rewrite <- IZR_pow2 by lia; apply IZR_le; lia).
  assert (powerRZ 2 1022 <= powerRZ 2 52 * powerRZ 2 e).
  { rewrite <- powerRZ_add by lra. apply powerRZ_le_mono. lia. }
  nra.
Qed.

Lemma range_of_normal (m : positive) (e : Z) :
  (2 ^ 52 <= Zpos m < 2 ^ 53)%Z -> (-1063 <= e <= 969)%Z ->
  valid_binary F64.prec F64.emax (S754_finite false m e) = true /\
  powerRZ 2 (-1011) <= F64.to_R (S754_finite false m e) < powerRZ 2 1022.
Proof.
  intros Hm He. split.
  - unfold valid_binary, bounded, canonical_mantissa, F64.prec, F64.emax.
    rewrite (digits2_pos_bounds m 52) by (change (52 + 1)%Z with 53%Z; lia).
    change (52 + 1)%Z with 53%Z. rewrite fexp_53 by lia.
    rewrite Z.eqb_refl. cbn [andb]. apply Z.leb_le. lia.
  - cbn [F64.to_R]. rewrite Rmult_1_l. pose proof (powerRZ_pos e) as Hpe.
    assert (powerRZ 2 52 <= IZR (Zpos m)) by (rewrite <- IZR_pow2 by lia; apply IZR_le; lia).
    assert (IZR (Zpos m) < powerRZ 2 53) by (rewrite <- IZR_pow2 by lia; apply IZR_lt; lia).
    assert (powerRZ 2 (-1011) <= powerRZ 2 52 * powerRZ 2 e).
    { rewrite <- powerRZ_add by lra. apply powerRZ_le_mono. lia. }
    assert (powerRZ 2 53 * powerRZ 2 e <= powerRZ 2 1022).
    { rewrite <- powerRZ_add by lra. apply powerRZ_le_mono. lia. }
    pose proof (powerRZ_pos 52). pose proof (powerRZ_pos 53). nra.
Qed.

Lemma of_Z_3600 : F64.of_Z 3600 = S754_finite false 7916483719987200 (-41).
Proof. vm_compute. reflexivity. Qed.

(** C8, as stated, fails: for the positive float [2 ^ -1020] the write
    conversion overflows to infinity and the read conversion of that is
    0.0, which is within no relative tolerance below 1 of the float. *)
Lemma C8_counterexample :
  valid_binary F64.prec F64.emax tiny_scale = true /\
  0 < F64.to_R tiny_scale /\
  write_scale tiny_scale = Ok (S754_infinity false) /\
  scale_roundtrip tiny_scale = Ok (S754_zero false) /\
  forall tol, tol < 1 -> ~ reproduces tol tiny_scale.
Proof.
  assert (Hpos : 0 < F64.to_R tiny_scale).
  { unfold tiny_scale. cbn [F64.to_R]. pose proof (powerRZ_pos (-1072)).
    assert (0 < IZR 4503599627370496) by (apply IZR_lt; lia). nra. }
  assert (Hrun : scale_roundtrip tiny_scale = Ok (S754_zero false))
    by (vm_compute; reflexivity).
  split; [vm_compute; reflexivity |]. split; [exact Hpos |].
  split; [vm_compute; reflexivity |]. split; [exact Hrun |].
  intros tol Htol (r & Hr & Hclose). rewrite Hrun in Hr. injection Hr as <-.
  cbn [F64.to_R] in Hclose. rewrite Rminus_0_l, Rabs_Ropp in Hclose.
  rewrite Rabs_pos_eq in Hclose by lra. nra.
Qed.

(** C8, amended: for every binary64 number [s] with
    [2 ^ -1011 <= s < 2 ^ 1022], the write conversion [3600 / s] and the
    read conversion [3600 /] of its result both return, and the result is
    a positive number within a relative error of [2 ^ -51] of [s]. *)
Theorem C8_scale_roundtrip (s : f64) :
  valid_binary F64.prec F64.emax s = true ->
  powerRZ 2 (-1011) <= F64.to_R s < powerRZ 2 1022 ->
  exists a r,
    write_scale s = Ok a /\ read_scale a = Ok r /\
    0 < F64.to_R r /\
    Rabs (F64.to_R r - F64.to_R s) <= F64.to_R s * powerRZ 2 (-51).
Proof.
  intros Hvalid Hrange.
  destruct (normal_of_range s Hvalid Hrange) as (ms & es & -> & Hms & Hes).
  unfold write_scale, read_scale, float_truediv. rewrite of_Z_3600.
  unfold F64.div, F64.prec, F64.emax.
  destruct (SFdiv_normal_R 7916483719987200 ms (-41) es ltac:(lia) Hms ltac:(lia) ltac:(lia))
    as (ma & ea & Hqa & Hma & Hea & Ha).
  destruct (SFdiv_normal_R 7916483719987200 ma (-41) ea ltac:(lia) Hma ltac:(lia) ltac:(lia))
    as (mr & er & Hqr & Hmr & Her & Hr).
  exists (S754_finite false ma ea), (S754_finite false mr er).
  split; [by rewrite Hqa |]. split; [by rewrite Hqr |].
  assert (HC : 0 < F64.to_R (S754_finite false 7916483719987200 (-41))).
  { cbn [F64.to_R]. pose proof (powerRZ_pos (-41)).
    assert (0 < IZR 7916483719987200) by (apply IZR_lt; lia). nra. }
  assert (HS : 0 < F64.to_R (S754_finite false ms es)).
  { pose proof (powerRZ_pos (-1011)). lra. }
  assert (Hu : 0 < powerRZ 2 (-53) <= 1 / 4).
  { split; [apply powerRZ_pos |].
    replace (1 / 4) with (powerRZ 2 (-2)); [apply powerRZ_le_mono; lia |].
    change (-2)%Z with (- (2))%Z. rewrite powerRZ_neg', <- IZR_pow2 by lia.
    change (2 ^ 2)%Z with 4%Z. lra. }
  destruct (roundtrip_error _ _ _ _ _ HC HS Hu Ha Hr) as (_ & Hrpos & Herr).
  split; [exact Hrpos |].
  replace (powerRZ 2 (-51)) with (4 * powerRZ 2 (-53)); [exact Herr |].
  replace 4 with (powerRZ 2 2) by (by rewrite <- IZR_pow2 by lia).
  rewrite <- powerRZ_add by lra. reflexivity.
Qed.

Lemma C8_scale_roundtrip_witness :
  exists a r,
    write_scale F64.one = Ok a /\ read_scale a = Ok r /\
    Rabs (F64.to_R r - F64.to_R F64.one) <= F64.to_R F64.one * powerRZ 2 (-51).
Proof.
  destruct (range_of_normal 4503599627370496 (-52) ltac:(lia) ltac:(lia)) as [Hvalid Hrange].
  destruct (C8_scale_roundtrip F64.one Hvalid Hrange) as (a & r & Ha & Hr & _ & Herr).
  exists a, r. split; [exact Ha |]. split; [exact Hr | exact Herr].
Defined.

End ScaleRoundtrip.
